(** * Invoice grouping and flattening of [server.py]

    A shallow embedding of the core of [get_grouped_invoices]
    (server.py, lines 78-166): the loop that classifies the invoices
    and groups them by client, and the construction of the header and
    of the rows handed to the csv writer.

    The invoices are decoded JSON, so the embedding starts with the
    Python values JSON decodes to, the exceptions the operations of
    the loop can raise on them, and [datetime.strptime] for the one
    format the program uses. *)

From Stdlib Require Import String Ascii List ZArith Lia Bool.
From Stdlib Require Import Decimal DecimalString DecimalNat.
From Stdlib Require Import Permutation.
Import ListNotations.

Set Warnings "-register-all".

Local Open Scope string_scope.
Local Open Scope Z_scope.

(* ================================================================== *)
(** ** Python values and exceptions *)

Module Py.

(** What [response.json()] returns.  A [str] is a sequence of code
    points below 256; a number is an [int] (JSON numbers with a
    fraction are not modelled).  A dict keeps its bindings in
    insertion order; its keys are distinct and lookup takes the
    first binding. *)
Inductive value : Type :=
| VNone
| VBool (b : bool)
| VInt (n : Z)
| VStr (s : string)
| VList (xs : list value)
| VDict (kvs : list (string * value)).

(** The exceptions of the run.  [DictSliceError] is what [d[:10]]
    raises on a dict [d], the class of which the interpreter decides:
    a TypeError up to Python 3.11, where a slice has no hash, and a
    KeyError from 3.12 on, where it has one and is no key of [d]. *)
Inductive exn : Type :=
| AttributeError | TypeError | IndexError | KeyError | ValueError
| DictSliceError.

Inductive result (A : Type) : Type :=
| Ok (a : A)
| Raise (e : exn).
Arguments Ok {A} a.
Arguments Raise {A} e.

Definition bind {A B} (m : result A) (k : A -> result B) : result B :=
  match m with
  | Ok a => k a
  | Raise e => Raise e
  end.

(** [bool(v)], as [or], [not] and [if] use it. *)
Definition truthy (v : value) : bool :=
  match v with
  | VNone => false
  | VBool b => b
  | VInt n => negb (n =? 0)
  | VStr s => negb (String.eqb s "")
  | VList xs => match xs with [] => false | _ => true end
  | VDict kvs => match kvs with [] => false | _ => true end
  end.

Fixpoint lookup (kvs : list (string * value)) (key : string) : option value :=
  match kvs with
  | [] => None
  | (k, v) :: rest => if String.eqb k key then Some v else lookup rest key
  end.

(** [v.get(key, default)]: only a dict has the method. *)
Definition get (v : value) (key : string) (default : value) : result value :=
  match v with
  | VDict kvs =>
      Ok (match lookup kvs key with Some x => x | None => default end)
  | _ => Raise AttributeError
  end.

(** [v[0]] *)
Definition item0 (v : value) : result value :=
  match v with
  | VList [] => Raise IndexError
  | VList (x :: _) => Ok x
  | VStr EmptyString => Raise IndexError
  | VStr (String c _) => Ok (VStr (String c EmptyString))
  | VDict _ => Raise KeyError          (* the keys are strings, 0 is none of them *)
  | VNone | VBool _ | VInt _ => Raise TypeError
  end.

(** The class of an exception under an interpreter, [slices_hashable]
    telling whether it is Python 3.12 or later. *)
Definition python_exn (slices_hashable : bool) (e : exn) : exn :=
  match e with
  | DictSliceError => if slices_hashable then KeyError else TypeError
  | _ => e
  end.

Definition python_result {A : Type} (slices_hashable : bool) (r : result A)
  : result A :=
  match r with
  | Ok a => Ok a
  | Raise e => Raise (python_exn slices_hashable e)
  end.

(** [v[:10]]: a str and a list are sliced, None and the numbers are
    not subscriptable, and a dict looks the slice up as a key (its
    keys are the strings of a JSON object, so the slice is none of
    them). *)
Definition slice10 (v : value) : result value :=
  match v with
  | VStr s => Ok (VStr (substring 0 10 s))
  | VList xs => Ok (VList (firstn 10 xs))
  | VDict _ => Raise DictSliceError
  | VNone | VBool _ | VInt _ => Raise TypeError
  end.

Fixpoint all_str (xs : list value) : option (list string) :=
  match xs with
  | [] => Some []
  | VStr s :: rest =>
      match all_str rest with Some l => Some (s :: l) | None => None end
  | _ :: _ => None
  end.

(** [sep.join(v)]: [v] is iterated (a list by its items, a str by
    its characters, a dict by its keys) and every item must be a str. *)
Definition join (sep : string) (v : value) : result string :=
  match v with
  | VList xs =>
      match all_str xs with
      | Some l => Ok (String.concat sep l)
      | None => Raise TypeError
      end
  | VStr s =>
      Ok (String.concat sep
            (map (fun c => String c EmptyString) (list_ascii_of_string s)))
  | VDict kvs => Ok (String.concat sep (map fst kvs))
  | VNone | VBool _ | VInt _ => Raise TypeError
  end.

(** Keys of a dict are hashed; a list or a dict has no hash. *)
Definition hashable (v : value) : bool :=
  match v with
  | VList _ | VDict _ => false
  | _ => true
  end.

(** [==] on hashable values: a bool is the int 0 or 1. *)
Definition key_eqb (a b : value) : bool :=
  match a, b with
  | VNone, VNone => true
  | VBool x, VBool y => Bool.eqb x y
  | VBool x, VInt n | VInt n, VBool x => Z.b2z x =? n
  | VInt n, VInt m => n =? m
  | VStr s, VStr t => String.eqb s t
  | _, _ => false
  end.

(** [str(i)] of a non-negative int, as an f-string prints it. *)
Definition str_of_nat (i : nat) : string :=
  NilZero.string_of_uint (Nat.to_uint i).

End Py.

Import Py.

Notation "x <- m ;; k" := (bind m (fun x => k))
  (at level 61, m at next level, right associativity).

(* ================================================================== *)
(** ** [datetime] and [strptime] with the format [%Y-%m-%d] *)

Module Datetime.

Record datetime : Type := mk_datetime {
  year : Z; month : Z; day : Z;
  hour : Z; minute : Z; second : Z; microsecond : Z
}.

(** [a < b] on naive datetimes compares the fields in this order. *)
Definition datetime_lt (a b : datetime) : bool :=
  match year a ?= year b with
  | Lt => true | Gt => false | Eq =>
  match month a ?= month b with
  | Lt => true | Gt => false | Eq =>
  match day a ?= day b with
  | Lt => true | Gt => false | Eq =>
  match hour a ?= hour b with
  | Lt => true | Gt => false | Eq =>
  match minute a ?= minute b with
  | Lt => true | Gt => false | Eq =>
  match second a ?= second b with
  | Lt => true | Gt => false | Eq =>
    microsecond a <? microsecond b
  end end end end end end.

Definition is_leap (y : Z) : bool :=
  (y mod 4 =? 0) && (negb (y mod 100 =? 0) || (y mod 400 =? 0)).

Definition days_in_month (y m : Z) : Z :=
  if m =? 2 then (if is_leap y then 29 else 28)
  else if (m =? 4) || (m =? 6) || (m =? 9) || (m =? 11) then 30
  else 31.

(** The check [date(year, month, day)] makes of its fields. *)
Definition valid_date (y m d : Z) : bool :=
  (1 <=? y) && (y <=? 9999) && (1 <=? m) && (m <=? 12)
  && (1 <=? d) && (d <=? days_in_month y m).

(** The value of a decimal digit. *)
Definition digit (c : ascii) : option Z :=
  let n := Z.of_N (N_of_ascii c) in
  if (48 <=? n) && (n <=? 57) then Some (n - 48) else None.

(** A digit of the class [[lo-hi]]. *)
Definition digit_in (lo hi : Z) (c : ascii) : option Z :=
  match digit c with
  | Some v => if (lo <=? v) && (v <=? hi) then Some v else None
  | None => None
  end.

Definition orelse {A} (a b : option A) : option A :=
  match a with Some _ => a | None => b end.

Section Regex.
(** The pieces of the pattern [strptime] compiles the format to,
    [(?P<Y>\d\d\d\d)-(?P<m>1[0-2]|0[1-9]|[1-9])-(?P<d>3[0-1]|[1-2]\d|0[1-9]|[1-9]| [1-9])],
    each taking the rest of the pattern as a continuation; the
    alternatives of a group are tried from left to right.  A group
    yields the int its text converts to. *)
Context {A : Type}.

Definition lit (c : ascii) (k : string -> option A) (s : string) : option A :=
  match s with
  | String c' r => if Ascii.eqb c' c then k r else None
  | EmptyString => None
  end.

Definition re_Y (k : Z -> string -> option A) (s : string) : option A :=
  match s with
  | String a (String b (String c (String d r))) =>
      match digit a, digit b, digit c, digit d with
      | Some a, Some b, Some c, Some d =>
          k (1000 * a + 100 * b + 10 * c + d) r
      | _, _, _, _ => None
      end
  | _ => None
  end.

(** Two characters, the first of [[l1-h1]] and the second of [[l2-h2]]. *)
Definition two (l1 h1 l2 h2 : Z) (k : Z -> string -> option A)
           (s : string) : option A :=
  match s with
  | String a (String b r) =>
      match digit_in l1 h1 a, digit_in l2 h2 b with
      | Some x, Some y => k (10 * x + y) r
      | _, _ => None
      end
  | _ => None
  end.

Definition one (l h : Z) (k : Z -> string -> option A)
           (s : string) : option A :=
  match s with
  | String a r =>
      match digit_in l h a with
      | Some x => k x r
      | None => None
      end
  | EmptyString => None
  end.

Definition re_m (k : Z -> string -> option A) (s : string) : option A :=
  orelse (two 1 1 0 2 k s)
 (orelse (two 0 0 1 9 k s)
         (one 1 9 k s)).

Definition re_d (k : Z -> string -> option A) (s : string) : option A :=
  orelse (two 3 3 0 1 k s)
 (orelse (two 1 2 0 9 k s)
 (orelse (two 0 0 1 9 k s)
 (orelse (one 1 9 k s)
         (lit " " (one 1 9 k) s)))).
End Regex.

(** [format_regex.match(data_string)]: the three groups and what is
    left of the string after the match. *)
Definition match_format (s : string) : option (Z * Z * Z * string) :=
  re_Y (fun y => lit "-" (re_m (fun m => lit "-"
    (re_d (fun d r => Some (y, m, d, r)))))) s.

(** [datetime.strptime(s, "%Y-%m-%d")]: no match, text left over
    after the match and a date that does not exist are ValueErrors. *)
Definition strptime_str (s : string) : result datetime :=
  match match_format s with
  | None => Raise ValueError
  | Some (y, m, d, r) =>
      if negb (String.eqb r "") then Raise ValueError
      else if valid_date y m d then Ok (mk_datetime y m d 0 0 0 0)
      else Raise ValueError
  end.

Definition strptime (v : value) : result datetime :=
  match v with
  | VStr s => strptime_str s
  | _ => Raise TypeError
  end.

End Datetime.

Import Datetime.

(* ================================================================== *)
(** ** The loop of [get_grouped_invoices] (server.py, lines 85-121) *)

(** The dict built at lines 103-111. *)
Record invoice_info : Type := mk_invoice_info {
  status : string;
  invoice_id : value;
  amount : value;
  description : value;
  download_link : value;
  create_date : value;
  due_date : value
}.

(** The dict built at lines 114-119, with the list of [invoices] that
    line 121 appends to. *)
Record group : Type := mk_group {
  client_name : value;
  client_email : string;
  client_phone : value;
  invoices : list invoice_info
}.

(** The dict [clients], in insertion order. *)
Definition clients : Type := list (value * group).

(** Lines 86-90. *)
Definition client_fields (inv : value)
  : result (value * value * string * value) :=
  client <- get inv "client" (VDict []) ;;
  client_id <- get client "id" (VStr "unknown") ;;
  name <- get client "name" (VStr "Unknown") ;;
  emails <- get client "emails" (VList []) ;;
  email <- join ", " emails ;;
  phone <- get client "phone" (VStr "") ;;
  Ok (client_id, name, email, phone).

(** Line 92: [inv.get("dueDate") or inv.get("items", [{}])[0].get("dueDate")]. *)
Definition due_date_str (inv : value) : result value :=
  top <- get inv "dueDate" VNone ;;
  if truthy top then Ok top
  else
    items <- get inv "items" (VList [VDict []]) ;;
    first <- item0 items ;;
    get first "dueDate" VNone.

(** Lines 96-99: the [try] around [strptime]; [None] is the [continue]
    of the handler, any exception but ValueError goes on up. *)
Definition parse_due_date (dds : value) : result (option datetime) :=
  match (s10 <- slice10 dds ;; strptime s10) with
  | Ok d => Ok (Some d)
  | Raise ValueError => Ok None
  | Raise e => Raise e
  end.

(** Lines 92-111: [None] when the invoice is skipped by one of the
    two [continue]s. *)
Definition classify (now : datetime) (inv : value)
  : result (option invoice_info) :=
  dds <- due_date_str inv ;;
  if negb (truthy dds) then Ok None
  else
    parsed <- parse_due_date dds ;;
    match parsed with
    | None => Ok None
    | Some d =>
        let st := if datetime_lt d now then "past_due" else "to_be_paid" in
        i <- get inv "id" VNone ;;
        a <- get inv "amount" VNone ;;
        de <- get inv "description" VNone ;;
        url <- get inv "url" (VDict []) ;;
        he <- get url "he" VNone ;;
        cd <- get inv "documentDate" VNone ;;
        Ok (Some (mk_invoice_info st i a de he cd dds))
    end.

(** [clients.get(k)], the keys compared as Python compares them. *)
Fixpoint find_group (k : value) (cs : clients) : option group :=
  match cs with
  | [] => None
  | (k', g) :: rest => if key_eqb k' k then Some g else find_group k rest
  end.

(** [k in clients]: the key is hashed first. *)
Definition contains (k : value) (cs : clients) : result bool :=
  if hashable k
  then Ok (match find_group k cs with Some _ => true | None => false end)
  else Raise TypeError.

(** Line 121: [clients[k]["invoices"].append(info)]. *)
Fixpoint append_invoice (k : value) (info : invoice_info) (cs : clients)
  : result clients :=
  match cs with
  | [] => Raise KeyError
  | (k', g) :: rest =>
      if key_eqb k' k
      then Ok ((k', mk_group (client_name g) (client_email g) (client_phone g)
                             (invoices g ++ [info])%list) :: rest)
      else
        rest' <- append_invoice k info rest ;;
        Ok ((k', g) :: rest')
  end.

(** One turn of the loop, lines 86-121. *)
Definition loop_body (now : datetime) (cs : clients) (inv : value)
  : result clients :=
  cf <- client_fields inv ;;
  let '(client_id, name, email, phone) := cf in
  r <- classify now inv ;;
  match r with
  | None => Ok cs
  | Some info =>
      present <- contains client_id cs ;;
      let cs1 := if present then cs
                 else (cs ++ [(client_id, mk_group name email phone [])])%list in
      append_invoice client_id info cs1
  end.

(** Lines 85-121, from the dict [cs]. *)
Fixpoint for_invoices (now : datetime) (invs : list value) (cs : clients)
  : result clients :=
  match invs with
  | [] => Ok cs
  | inv :: rest =>
      cs' <- loop_body now cs inv ;;
      for_invoices now rest cs'
  end.

(** Lines 83-121. *)
Definition aggregate (now : datetime) (invs : list value) : result clients :=
  for_invoices now invs [].

(* ================================================================== *)
(** ** Header and rows (server.py, lines 125-166) *)

(** Line 125. *)
Definition max_invoices (cs : clients) : nat :=
  match cs with
  | [] => 0%nat
  | _ => list_max (map (fun c => length (invoices (snd c))) cs)
  end.

Definition base_headers : list string :=
  ["client_id"; "client_name"; "client_email"; "client_phone"].

(** The seven names lines 132-138 give slot [i]. *)
Definition slot_headers (i : nat) : list string :=
  let n := "invoice" ++ str_of_nat i in
  [n ++ "_status"; n ++ "_id"; n ++ "_amount"; n ++ "_description";
   n ++ "_download_link"; n ++ "_create_date"; n ++ "_due_date"].

(** Lines 129-139: [i] runs over [range(1, max_invoices + 1)]. *)
Definition invoice_headers (n : nat) : list string :=
  flat_map slot_headers (seq 1 n).

Definition headers (cs : clients) : list string :=
  (base_headers ++ invoice_headers (max_invoices cs))%list.

(** Lines 155-163. *)
Definition invoice_cells (i : invoice_info) : list value :=
  [VStr (status i); invoice_id i; amount i; description i;
   download_link i; create_date i; due_date i].

(** Lines 148-165: the row of one client, padded to [width] cells. *)
Definition row_of (width : nat) (c : value * group) : list value :=
  let row := ([fst c; client_name (snd c); VStr (client_email (snd c));
               client_phone (snd c)]
              ++ flat_map invoice_cells (invoices (snd c)))%list in
  (row ++ repeat (VStr "") (width - length row))%list.

Definition rows (cs : clients) : list (list value) :=
  map (row_of (length (headers cs))) cs.

(** What the csv writer is given: [headers] at line 145, then a row
    per client at line 166. *)
Definition flatten (cs : clients) : list string * list (list value) :=
  (headers cs, rows cs).

(** Lines 82-166, the list of invoices and the time of the run being
    inputs.  The csv text and its upload are not modelled. *)
Definition get_grouped_invoices (now : datetime) (invs : list value)
  : result (list string * list (list value)) :=
  cs <- aggregate now invs ;;
  Ok (flatten cs).

(* ================================================================== *)
(** ** Definitions the statements are written with *)

(** The effect of lines 113-121 on [clients] as one pure update: the
    invoice goes to the end of the list of the first group whose key
    equals [k], or to a new last group with the given contact fields. *)
Fixpoint upsert (k name : value) (email : string) (phone : value)
         (info : invoice_info) (cs : clients) : clients :=
  match cs with
  | [] => [(k, mk_group name email phone [info])]
  | (k', g) :: rest =>
      if key_eqb k' k
      then (k', mk_group (client_name g) (client_email g) (client_phone g)
                         (invoices g ++ [info])%list) :: rest
      else (k', g) :: upsert k name email phone info rest
  end.

(** The key an invoice is grouped under, when the loop keeps it. *)
Definition retained_key (now : datetime) (inv : value) : option value :=
  match client_fields inv, classify now inv with
  | Ok (k, _, _, _), Ok (Some _) => Some k
  | _, _ => None
  end.

Fixpoint retained_keys (now : datetime) (invs : list value) : list value :=
  match invs with
  | [] => []
  | inv :: rest =>
      match retained_key now inv with
      | Some k => k :: retained_keys now rest
      | None => retained_keys now rest
      end
  end.

(** Keys in the order of their first occurrence. *)
Definition add_key (ks : list value) (k : value) : list value :=
  if existsb (fun k' => key_eqb k' k) ks then ks else (ks ++ [k])%list.

Definition first_seen (ks : list value) : list value :=
  fold_left add_key ks [].

(** The client id line 87 reads from an invoice, kept or not, and
    the ids of the input in the order the loop meets them. *)
Definition client_key (inv : value) : option value :=
  match client_fields inv with
  | Ok (k, _, _, _) => Some k
  | Raise _ => None
  end.

Fixpoint encountered_keys (invs : list value) : list value :=
  match invs with
  | [] => []
  | inv :: rest =>
      match client_key inv with
      | Some k => k :: encountered_keys rest
      | None => encountered_keys rest
      end
  end.

(** [k in clients], for a key that has a hash. *)
Definition has_group (cs : clients) (k : value) : bool :=
  match find_group k cs with Some _ => true | None => false end.

(** How many groups of [cs] have a key equal to [k]. *)
Definition groups_keyed (k : value) (cs : clients) : nat :=
  length (filter (fun c => key_eqb (fst c) k) cs).

(** No two groups have equal keys. *)
Definition keys_distinct (cs : clients) : Prop :=
  forall k, (groups_keyed k cs <= 1)%nat.

(** The invoice has no client sub-object, or one without an id. *)
Definition no_client_id (inv : value) : bool :=
  match inv with
  | VDict d =>
      match lookup d "client" with
      | None => true
      | Some (VDict c) =>
          match lookup c "id" with None => true | Some _ => false end
      | Some _ => false
      end
  | _ => false
  end.

(** A calendar date written [YYYY-MM-DD]: ten characters, the year of
    four digits, month and day of two, and the date one that exists
    (years 0001 to 9999, the range of [datetime]). *)
Definition iso_date (s : string) : bool :=
  match s with
  | String y1 (String y2 (String y3 (String y4 (String h1
      (String m1 (String m2 (String h2 (String d1 (String d2 EmptyString))))))))) =>
      match digit y1, digit y2, digit y3, digit y4 with
      | Some a, Some b, Some c, Some d =>
          match digit m1, digit m2, digit d1, digit d2 with
          | Some e, Some f, Some g, Some h =>
              Ascii.eqb h1 "-" && Ascii.eqb h2 "-"
              && valid_date (1000 * a + 100 * b + 10 * c + d)
                            (10 * e + f) (10 * g + h)
          | _, _, _, _ => false
          end
      | _, _, _, _ => false
      end
  | _ => false
  end.

(** A datetime as an instant: microseconds since 0001-01-01T00:00:00,
    the days counted as [date.toordinal] counts them in the proleptic
    Gregorian calendar. *)
Definition days_before_year (y : Z) : Z :=
  365 * (y - 1) + (y - 1) / 4 - (y - 1) / 100 + (y - 1) / 400.

Definition days_before_month (y m : Z) : Z :=
  match m with
  | 1 => 0 | 2 => 31 | 3 => 59 | 4 => 90 | 5 => 120 | 6 => 151
  | 7 => 181 | 8 => 212 | 9 => 243 | 10 => 273 | 11 => 304 | 12 => 334
  | _ => 0
  end
  + (if (2 <? m) && is_leap y then 1 else 0).

Definition ordinal (y m d : Z) : Z :=
  days_before_year y + days_before_month y m + d.

Definition instant (t : datetime) : Z :=
  (((ordinal (year t) (month t) (day t) * 24 + hour t) * 60
    + minute t) * 60 + second t) * 1000000 + microsecond t.

(** The fields of a datetime that exists. *)
Definition valid_datetime (t : datetime) : bool :=
  valid_date (year t) (month t) (day t)
  && (0 <=? hour t) && (hour t <? 24)
  && (0 <=? minute t) && (minute t <? 60)
  && (0 <=? second t) && (second t <? 60)
  && (0 <=? microsecond t) && (microsecond t <? 1000000).

(** The shape of an invoice record: the client, when there is one, an
    object whose [emails] is a list of strings and whose id is a
    string or a number; [dueDate] a string or null; [items] a list of
    objects with such a [dueDate]; [url] an object. *)
Definition opt_ok (P : value -> bool) (o : option value) : bool :=
  match o with None => true | Some v => P v end.

Definition is_date_field (v : value) : bool :=
  match v with VStr _ | VNone => true | _ => false end.

Definition is_item (v : value) : bool :=
  match v with
  | VDict it => opt_ok is_date_field (lookup it "dueDate")
  | _ => false
  end.

Definition is_client (v : value) : bool :=
  match v with
  | VDict c =>
      opt_ok (fun i => match i with VStr _ | VInt _ => true | _ => false end)
             (lookup c "id")
      && opt_ok (fun e => match e with
                          | VList xs => match all_str xs with
                                        | Some _ => true | None => false end
                          | _ => false end)
                (lookup c "emails")
  | _ => false
  end.

Definition well_formed (inv : value) : bool :=
  match inv with
  | VDict d =>
      opt_ok is_client (lookup d "client")
      && opt_ok is_date_field (lookup d "dueDate")
      && opt_ok (fun v => match v with
                          | VList xs => forallb is_item xs
                          | _ => false end)
                (lookup d "items")
      && opt_ok (fun u => match u with VDict _ => true | _ => false end)
                (lookup d "url")
  | _ => false
  end.

(** The run of the scenario: one invoice of client [c1], due on
    2000-01-01, at the start of 2025. *)
Definition sample_now : datetime := mk_datetime 2025 1 1 0 0 0 0.

Definition sample_invoice : value :=
  VDict [("client", VDict [("id", VStr "c1"); ("name", VStr "Acme")]);
         ("dueDate", VStr "2000-01-01");
         ("id", VStr "i1");
         ("amount", VInt 100)].

(** What the loop keeps of it. *)
Definition sample_info : invoice_info :=
  mk_invoice_info "past_due" (VStr "i1") (VInt 100) VNone VNone VNone
                  (VStr "2000-01-01").

(** The instant it is due, and the microsecond after. *)
Definition sample_due : datetime := mk_datetime 2000 1 1 0 0 0 0.
Definition sample_after_due : datetime := mk_datetime 2000 1 1 0 0 0 1.

(** A later invoice of the same client, with other contact fields. *)
Definition sample_later_invoice : value :=
  VDict [("client", VDict [("id", VStr "c1");
                           ("name", VStr "Acme Ltd");
                           ("emails", VList [VStr "a@x.io"]);
                           ("phone", VStr "555")]);
         ("dueDate", VStr "2030-01-01");
         ("id", VStr "i2")].

Definition sample_later_info : invoice_info :=
  mk_invoice_info "to_be_paid" (VStr "i2") VNone VNone VNone VNone
                  (VStr "2030-01-01").

(** Invoices with no client, and with a client that has no id. *)
Definition sample_no_client : value :=
  VDict [("dueDate", VStr "2024-05-01"); ("id", VStr "a")].

Definition sample_no_client_id : value :=
  VDict [("client", VDict [("name", VStr "Bo")]);
         ("dueDate", VStr "2026-05-01"); ("id", VStr "b")].

(** Due dates that are no date, lack the leading zeros, or are empty. *)
Definition sample_bad_date : value :=
  VDict [("dueDate", VStr "2024-02-30T10:00:00")].

Definition sample_short_date : value :=
  VDict [("dueDate", VStr "2000-1-1")].


(** Invoices of three clients, some of them skipped. *)
Definition sample_of (k due : string) : value :=
  VDict [("client", VDict [("id", VStr k)]); ("dueDate", VStr due)].

Definition sample_run : list value :=
  [sample_of "b" "2024-01-01"; sample_of "a" "bad";
   sample_of "a" "2026-01-01"; sample_of "b" "2026-02-02";
   sample_of "c" ""; sample_of "c" "2025-03-03"].

(** Client [a] met first, with an invoice that is skipped, and kept
    only after client [b]. *)
Definition sample_skipped_first : list value :=
  [sample_of "a" "bad"; sample_of "b" "2024-01-01";
   sample_of "a" "2026-01-01"].

(* ================================================================== *)
(** ** Definitions for the properties of the run *)

(** The invoices of the group with a key equal to [k], none when
    there is no such group. *)
Definition invoices_of (k : value) (cs : clients) : list invoice_info :=
  match find_group k cs with
  | Some g => invoices g
  | None => []
  end.

(** What the loop keeps of an invoice: its key and the dict of lines
    103-111. *)
Definition kept (now : datetime) (inv : value)
  : option (value * invoice_info) :=
  match client_fields inv, classify now inv with
  | Ok (k, _, _, _), Ok (Some info) => Some (k, info)
  | _, _ => None
  end.

(** What is kept of the invoices whose key equals [k], in the order
    of the input. *)
Fixpoint kept_infos (now : datetime) (k : value) (invs : list value)
  : list invoice_info :=
  match invs with
  | [] => []
  | inv :: rest =>
      match kept now inv with
      | Some (k', info) =>
          if key_eqb k' k then info :: kept_infos now k rest
          else kept_infos now k rest
      | None => kept_infos now k rest
      end
  end.

(** The number of invoices in all the groups. *)
Definition total_invoices (cs : clients) : nat :=
  list_sum (map (fun c => length (invoices (snd c))) cs).

(** A stored invoice is classified at [now]: its [due_date] is a
    string whose first ten characters [strptime] accepts, and its
    status is the one line 101 gives that date. *)
Definition classified_at (now : datetime) (info : invoice_info) : Prop :=
  exists s d,
    due_date info = VStr s /\
    strptime_str (substring 0 10 s) = Ok d /\
    status info = (if datetime_lt d now then "past_due" else "to_be_paid").

(** An invoice, and the groups, with the status taken out. *)
Definition blank_status (i : invoice_info) : invoice_info :=
  mk_invoice_info "" (invoice_id i) (amount i) (description i)
                  (download_link i) (create_date i) (due_date i).

Definition blank (cs : clients) : clients :=
  map (fun c => (fst c,
                 mk_group (client_name (snd c)) (client_email (snd c))
                          (client_phone (snd c))
                          (map blank_status (invoices (snd c))))) cs.

Definition map_result {A B : Type} (f : A -> B) (r : result A) : result B :=
  match r with
  | Ok a => Ok (f a)
  | Raise e => Raise e
  end.

(* ================================================================== *)
(** ** The response of the search (server.py, lines 50-58, 80 and 85) *)

(** [p in s] for two strings. *)
Fixpoint is_substring (p s : string) : bool :=
  prefix p s
  || match s with
     | EmptyString => false
     | String _ r => is_substring p r
     end.

(** [x == "items"] *)
Definition is_items (x : value) : bool :=
  match x with
  | VStr s => String.eqb s "items"
  | _ => false
  end.

(** Line 53: ["items" in json_data], which looks for a key of a dict,
    an item of a list and a part of a str, and is a TypeError on what
    cannot be iterated. *)
Definition has_items (json_data : value) : result bool :=
  match json_data with
  | VDict kvs =>
      Ok (match lookup kvs "items" with Some _ => true | None => false end)
  | VList xs => Ok (existsb is_items xs)
  | VStr s => Ok (is_substring "items" s)
  | VNone | VBool _ | VInt _ => Raise TypeError
  end.

(** Line 54: [json_data["items"]]; a list and a str take no str for
    an index. *)
Definition items_of (json_data : value) : result value :=
  match json_data with
  | VDict kvs =>
      match lookup kvs "items" with
      | Some v => Ok v
      | None => Raise KeyError
      end
  | _ => Raise TypeError
  end.

(** Lines 50-58 of [get_open_invoices], from the decoded body of the
    response; the request itself is not modelled. *)
Definition get_open_invoices (json_data : value) : result value :=
  found <- has_items json_data ;;
  if found then items_of json_data
  else
    match json_data with
    | VList _ => Ok json_data
    | _ => Ok (VList [])
    end.

(** Line 85: what [for inv in invoices] goes through. *)
Definition iterate (invoices : value) : result (list value) :=
  match invoices with
  | VList xs => Ok xs
  | VStr s =>
      Ok (map (fun c => VStr (String c EmptyString)) (list_ascii_of_string s))
  | VDict kvs => Ok (map (fun kv => VStr (fst kv)) kvs)
  | VNone | VBool _ | VInt _ => Raise TypeError
  end.

(** Lines 80-166, from the decoded body of the response. *)
Definition grouped_invoices_of_response (now : datetime) (json_data : value)
  : result (list string * list (list value)) :=
  invoices <- get_open_invoices json_data ;;
  invs <- iterate invoices ;;
  get_grouped_invoices now invs.

(* ================================================================== *)
(** ** The csv text (server.py, lines 143-168) *)

Definition LF : ascii := "010"%char.
Definition CR : ascii := "013"%char.
Definition TAB : ascii := "009"%char.
Definition DQUOTE : ascii := "034"%char.
Definition QUOTE : ascii := "'"%char.
Definition BACKSLASH : ascii := "\"%char.

Definition chars (s : string) : list ascii := list_ascii_of_string s.

Definition hex_digit (n : N) : ascii :=
  ascii_of_N (if (n <? 10)%N then 48 + n else 87 + n)%N.

(** The code points below 256 that [repr] writes as they are. *)
Definition printable (c : ascii) : bool :=
  let n := N_of_ascii c in
  ((32 <=? n) && (n <? 127) || (161 <=? n) && negb (n =? 173))%N.

(** One character of the [repr] of a str in the quotes [q]. *)
Definition repr_char (q c : ascii) : string :=
  if Ascii.eqb c BACKSLASH || Ascii.eqb c q
  then String BACKSLASH (String c EmptyString)
  else if Ascii.eqb c TAB then "\t"
  else if Ascii.eqb c LF then "\n"
  else if Ascii.eqb c CR then "\r"
  else if printable c then String c EmptyString
  else String BACKSLASH
         (String "x" (String (hex_digit (N_of_ascii c / 16))
                             (String (hex_digit (N_of_ascii c mod 16))
                                     EmptyString))).

(** [repr(s)]: single quotes, but double ones when the str has a
    single quote and no double one. *)
Definition repr_str (s : string) : string :=
  let q := if existsb (Ascii.eqb QUOTE) (chars s)
              && negb (existsb (Ascii.eqb DQUOTE) (chars s))
           then DQUOTE else QUOTE in
  String q (String.concat "" (map (repr_char q) (chars s)) ++ String q "").

(** [repr(n)] of an int, in decimal.  (The ints that json decodes
    have at most 4300 digits, which [str] converts.) *)
Definition repr_int (n : Z) : string :=
  NilZero.string_of_int (Z.to_int n).

(** [repr(v)] *)
Fixpoint repr (v : value) : string :=
  match v with
  | VNone => "None"
  | VBool true => "True"
  | VBool false => "False"
  | VInt n => repr_int n
  | VStr s => repr_str s
  | VList xs => "[" ++ String.concat ", " (map repr xs) ++ "]"
  | VDict kvs =>
      "{" ++ String.concat ", "
               (map (fun kv => repr_str (fst kv) ++ ": " ++ repr (snd kv)) kvs)
          ++ "}"
  end.

(** The text the writer makes of a cell: nothing for None, a str as
    it is, and [str(v)] for the rest. *)
Definition cell_text (v : value) : string :=
  match v with
  | VNone => ""
  | VStr s => s
  | _ => repr v
  end.

(** The characters that make the writer quote a field: the delimiter,
    the quote and those of the line terminator. *)
Definition needs_quoting (c : ascii) : bool :=
  Ascii.eqb c "," || Ascii.eqb c DQUOTE || Ascii.eqb c CR || Ascii.eqb c LF.

Fixpoint double_quotes (s : string) : string :=
  match s with
  | EmptyString => EmptyString
  | String c r =>
      if Ascii.eqb c DQUOTE
      then String DQUOTE (String DQUOTE (double_quotes r))
      else String c (double_quotes r)
  end.

Definition write_field (s : string) : string :=
  if existsb needs_quoting (chars s)
  then String DQUOTE (double_quotes s ++ String DQUOTE "")
  else s.

(** [writer.writerow] of the excel dialect on the texts of the cells:
    a row that would be written as nothing, the one of a single empty
    field, is written as a pair of quotes. *)
Definition writerow (fields : list string) : string :=
  let rec := String.concat "," (map write_field fields) in
  (if match fields with [] => false | _ => true end && String.eqb rec ""
   then String DQUOTE (String DQUOTE "")
   else rec)
  ++ String CR (String LF "").

(** The text of a table, a row after the other. *)
Fixpoint csv_text (table : list (list string)) : string :=
  match table with
  | [] => ""
  | row :: rest => writerow row ++ csv_text rest
  end.

(** Lines 143-168: [csv_string], from the header and the rows. *)
Definition csv_string (t : list string * list (list value)) : string :=
  csv_text (fst t :: map (map cell_text) (snd t)).

(* ================================================================== *)
(** ** The rows read back from the csv text (server.py, line 72) *)

(** The states of [csv.reader] that the excel dialect, which has no
    escape character, can be in. *)
Inductive reader_state : Type :=
| START_RECORD | START_FIELD | IN_FIELD
| IN_QUOTED_FIELD | QUOTE_IN_QUOTED_FIELD | EAT_CRNL.

(** The two errors of the reader. *)
Inductive csv_error : Type :=
| FieldLimit            (* field larger than field limit (131072) *)
| NewlineInField.       (* new-line character seen in unquoted field *)

Inductive parsed (A : Type) : Type :=
| Parsed (a : A)
| CsvError (e : csv_error).
Arguments Parsed {A} a.
Arguments CsvError {A} e.

(** The record being read: the fields that are saved and the
    characters of the field that is not. *)
Record reader : Type := mk_reader {
  r_state : reader_state;
  r_fields : list string;
  r_field : string
}.

Definition fresh : reader := mk_reader START_RECORD [] "".

Definition field_limit : Z := 131072.

Definition set_state (r : reader) (st : reader_state) : reader :=
  mk_reader st (r_fields r) (r_field r).

(** [parse_add_char], then the state [st]. *)
Definition add_char (r : reader) (c : ascii) (st : reader_state)
  : parsed reader :=
  if field_limit <=? Z.of_nat (String.length (r_field r))
  then CsvError FieldLimit
  else Parsed (mk_reader st (r_fields r) (r_field r ++ String c "")).

(** [parse_save_field], then the state [st]. *)
Definition save_field (r : reader) (st : reader_state) : reader :=
  mk_reader st (r_fields r ++ [r_field r])%list "".

Definition is_newline (c : ascii) : bool := Ascii.eqb c LF || Ascii.eqb c CR.

(** The case START_FIELD of [parse_process_char], which START_RECORD
    falls through to; [None] is the end of a line. *)
Definition start_field (r : reader) (ev : option ascii) : parsed reader :=
  match ev with
  | None => Parsed (save_field r START_RECORD)
  | Some c =>
      if is_newline c then Parsed (save_field r EAT_CRNL)
      else if Ascii.eqb c DQUOTE then Parsed (set_state r IN_QUOTED_FIELD)
      else if Ascii.eqb c "," then Parsed (save_field r START_FIELD)
      else add_char r c IN_FIELD
  end.

(** [parse_process_char] *)
Definition process (r : reader) (ev : option ascii) : parsed reader :=
  match r_state r with
  | START_RECORD =>
      match ev with
      | None => Parsed r
      | Some c =>
          if is_newline c then Parsed (set_state r EAT_CRNL)
          else start_field r ev
      end
  | START_FIELD => start_field r ev
  | IN_FIELD =>
      match ev with
      | None => Parsed (save_field r START_RECORD)
      | Some c =>
          if is_newline c then Parsed (save_field r EAT_CRNL)
          else if Ascii.eqb c "," then Parsed (save_field r START_FIELD)
          else add_char r c IN_FIELD
      end
  | IN_QUOTED_FIELD =>
      match ev with
      | None => Parsed r
      | Some c =>
          if Ascii.eqb c DQUOTE then Parsed (set_state r QUOTE_IN_QUOTED_FIELD)
          else add_char r c IN_QUOTED_FIELD
      end
  | QUOTE_IN_QUOTED_FIELD =>
      match ev with
      | None => Parsed (save_field r START_RECORD)
      | Some c =>
          if Ascii.eqb c DQUOTE then add_char r c IN_QUOTED_FIELD
          else if Ascii.eqb c "," then Parsed (save_field r START_FIELD)
          else if is_newline c then Parsed (save_field r EAT_CRNL)
          else add_char r c IN_FIELD
      end
  | EAT_CRNL =>
      match ev with
      | None => Parsed (set_state r START_RECORD)
      | Some c =>
          if is_newline c then Parsed r else CsvError NewlineInField
      end
  end.

Definition at_start (r : reader) : bool :=
  match r_state r with START_RECORD => true | _ => false end.

(** The end of the input: a field that is begun, or a quoted one that
    is open, is saved and ends a last record. *)
Definition at_end (r : reader) : list (list string) :=
  if negb (String.eqb (r_field r) "")
     || match r_state r with IN_QUOTED_FIELD => true | _ => false end
  then [(r_fields r ++ [r_field r])%list]
  else [].

(** [list(csv.reader(io.StringIO(text)))] from the reader [r]: the
    lines of the text end after each "\n"; the characters of a line
    are processed, then the end of the line, and a record is complete
    when the state is START_RECORD after that.  [pending] says that
    characters of a line without its "\n" have been processed. *)
Fixpoint read (text : string) (pending : bool) (r : reader)
  : parsed (list (list string)) :=
  match text with
  | EmptyString =>
      if pending then
        match process r None with
        | CsvError e => CsvError e
        | Parsed r1 =>
            if at_start r1 then Parsed [r_fields r1] else Parsed (at_end r1)
        end
      else Parsed (at_end r)
  | String c rest =>
      match process r (Some c) with
      | CsvError e => CsvError e
      | Parsed r1 =>
          if Ascii.eqb c LF then
            match process r1 None with
            | CsvError e => CsvError e
            | Parsed r2 =>
                if at_start r2 then
                  match read rest false fresh with
                  | CsvError e => CsvError e
                  | Parsed records => Parsed (r_fields r2 :: records)
                  end
                else read rest false r2
            end
          else read rest true r1
      end
  end.

(** A field that the reader has room for. *)
Definition fits (f : string) : bool :=
  Z.of_nat (String.length f) <=? field_limit.

(** Line 72: [rows = list(csv.reader(io.StringIO(csv_data)))]. *)
Definition csv_rows (csv_data : string) : parsed (list (list string)) :=
  read csv_data false fresh.

(* ================================================================== *)
(** ** Keys *)

Lemma key_eqb_refl (k : value) : hashable k = true -> key_eqb k k = true.
Proof.
  destruct k; simpl; intros H; try discriminate; auto.
  - apply Bool.eqb_reflx.
  - apply Z.eqb_refl.
  - apply String.eqb_refl.
Qed.

Lemma key_eqb_sym (a b : value) : key_eqb a b = key_eqb b a.
Proof.
  destruct a as [|x|n|s|xs|kv], b as [|y|m|t|ys|kw]; simpl; auto.
  - destruct x, y; reflexivity.
  - apply Z.eqb_sym.
  - apply String.eqb_sym.
Qed.

(** Equal keys are equal to the same keys. *)
Lemma key_eqb_trans (a b c : value) :
  key_eqb a b = true -> key_eqb c a = key_eqb c b.
Proof.
  destruct a as [|x|n|s|xs|kv], b as [|y|m|t|ys|kw]; simpl; intros H;
    try discriminate; auto.
  - apply Bool.eqb_prop in H. now subst.
  - apply Z.eqb_eq in H. subst m.
    destruct c as [|z|k|u|zs|kz]; simpl; auto.
    + destruct z, x; reflexivity.
    + destruct x; simpl; rewrite Z.eqb_sym; reflexivity.
  - apply Z.eqb_eq in H. subst n.
    destruct c as [|z|k|u|zs|kz]; simpl; auto.
    + destruct z, y; reflexivity.
    + destruct y; simpl; rewrite Z.eqb_sym; reflexivity.
  - apply Z.eqb_eq in H. now subst.
  - apply String.eqb_eq in H. now subst.
Qed.

Lemma key_eqb_hashable (a b : value) : key_eqb a b = true -> hashable b = true.
Proof. destruct a, b; simpl; auto; discriminate. Qed.

(* ================================================================== *)
(** ** [upsert] *)

Section Upsert.

Variables (k n : value) (e : string) (p : value) (info : invoice_info).

(** Lines 113-121 are [upsert], when the key has a hash. *)
Lemma insert_is_upsert (cs : clients) :
  hashable k = true ->
  (present <- contains k cs ;;
   append_invoice k info
     (if present then cs else (cs ++ [(k, mk_group n e p [])])%list))
  = Ok (upsert k n e p info cs).
Proof.
  intros Hk. unfold contains. rewrite Hk. simpl.
  induction cs as [|[k' g] rest IH]; simpl.
  - rewrite (key_eqb_refl k Hk). reflexivity.
  - destruct (key_eqb k' k) eqn:E.
    + simpl. rewrite E. reflexivity.
    + destruct (find_group k rest) eqn:F; simpl; rewrite E; rewrite IH;
        reflexivity.
Qed.

Lemma upsert_keys (cs : clients) :
  map fst (upsert k n e p info cs) = add_key (map fst cs) k.
Proof.
  unfold add_key.
  induction cs as [|[k' g] rest IH]; simpl; [reflexivity|].
  destruct (key_eqb k' k) eqn:E; simpl; [reflexivity|].
  rewrite IH.
  destruct (existsb (fun a => key_eqb a k) (map fst rest)); reflexivity.
Qed.

(** The group of a key equal to [k] gets the invoice, behind the ones
    it has, and keeps its contact fields; a new one takes them from
    the arguments. *)
Lemma find_group_upsert_same (k' : value) (cs : clients) :
  key_eqb k k' = true ->
  find_group k' (upsert k n e p info cs) =
  Some (match find_group k' cs with
        | Some g => mk_group (client_name g) (client_email g) (client_phone g)
                             (invoices g ++ [info])%list
        | None => mk_group n e p [info]
        end).
Proof.
  intros Hk.
  induction cs as [|[k0 g] rest IH]; simpl.
  - rewrite Hk. reflexivity.
  - rewrite (key_eqb_trans k k' k0 Hk).
    destruct (key_eqb k0 k') eqn:E; simpl.
    + rewrite E. reflexivity.
    + rewrite E. exact IH.
Qed.

Lemma find_group_upsert_other (k' : value) (cs : clients) :
  key_eqb k k' = false ->
  find_group k' (upsert k n e p info cs) = find_group k' cs.
Proof.
  intros Hk.
  induction cs as [|[k0 g] rest IH]; simpl.
  - rewrite Hk. reflexivity.
  - destruct (key_eqb k0 k) eqn:E; simpl.
    + destruct (key_eqb k0 k') eqn:E'; [|reflexivity].
      rewrite <- (key_eqb_trans k0 k' k E'), key_eqb_sym in Hk. congruence.
    + rewrite IH. reflexivity.
Qed.

(** Whatever the key, [upsert] leaves a group that was there in place,
    with the same contact fields and its invoices as a prefix. *)
Lemma find_group_upsert_frozen (k' : value) (cs : clients) (g : group) :
  find_group k' cs = Some g ->
  exists g',
    find_group k' (upsert k n e p info cs) = Some g' /\
    client_name g' = client_name g /\
    client_email g' = client_email g /\
    client_phone g' = client_phone g /\
    (invoices g' = invoices g \/ invoices g' = (invoices g ++ [info])%list).
Proof.
  intros Hg. destruct (key_eqb k k') eqn:E.
  - rewrite (find_group_upsert_same k' cs E), Hg.
    eexists. split; [reflexivity|]. simpl. repeat split. now right.
  - rewrite (find_group_upsert_other k' cs E), Hg.
    exists g. repeat split. now left.
Qed.

End Upsert.

Lemma groups_keyed_keys (k : value) (cs : clients) :
  groups_keyed k cs =
  length (filter (fun k' => key_eqb k' k) (map fst cs)).
Proof.
  unfold groups_keyed.
  induction cs as [|[k0 g] rest IH]; simpl; [reflexivity|].
  destruct (key_eqb k0 k); simpl; rewrite IH; reflexivity.
Qed.

Lemma existsb_false_filter (k k' : value) (ks : list value) :
  key_eqb k k' = true ->
  existsb (fun a => key_eqb a k) ks = false ->
  filter (fun a => key_eqb a k') ks = [].
Proof.
  intros E.
  induction ks as [|a ks IH]; simpl; [reflexivity|].
  rewrite <- (key_eqb_trans k k' a E).
  destruct (key_eqb a k); simpl; [discriminate|exact IH].
Qed.

Lemma keys_distinct_nil : keys_distinct [].
Proof. intros k. unfold groups_keyed. simpl. lia. Qed.

Lemma upsert_keys_distinct (k n : value) (e : string) (p : value)
      (info : invoice_info) (cs : clients) :
  keys_distinct cs -> keys_distinct (upsert k n e p info cs).
Proof.
  intros H k'. specialize (H k').
  rewrite groups_keyed_keys in *. rewrite upsert_keys. unfold add_key.
  destruct (existsb (fun k0 => key_eqb k0 k) (map fst cs)) eqn:E; [exact H|].
  rewrite filter_app, length_app. simpl.
  destruct (key_eqb k k') eqn:E'; simpl; [|lia].
  rewrite (existsb_false_filter k k' (map fst cs) E' E). simpl. lia.
Qed.

Lemma find_group_groups_keyed (k : value) (cs : clients) (g : group) :
  find_group k cs = Some g -> (1 <= groups_keyed k cs)%nat.
Proof.
  unfold groups_keyed.
  induction cs as [|[k0 g0] rest IH]; simpl; [discriminate|].
  destruct (key_eqb k0 k); simpl; intros H; [lia|auto].
Qed.

Lemma find_group_none_keys (k : value) (cs : clients) :
  find_group k cs = None <->
  existsb (fun a => key_eqb a k) (map fst cs) = false.
Proof.
  induction cs as [|[k0 g0] rest IH]; simpl; [tauto|].
  destruct (key_eqb k0 k); simpl; [split; discriminate|exact IH].
Qed.

(* ================================================================== *)
(** ** The loop *)

Section Loop.

Variable now : datetime.

(** A skipped invoice leaves [clients] as it was. *)
Lemma loop_body_dropped (cs : clients) (inv : value)
      (cf : value * value * string * value) :
  client_fields inv = Ok cf ->
  classify now inv = Ok None ->
  loop_body now cs inv = Ok cs.
Proof.
  intros Hc Hd. unfold loop_body. rewrite Hc. simpl.
  destruct cf as [[[k n] e] p]. rewrite Hd. reflexivity.
Qed.

(** A classified invoice is put in [clients] by [upsert]. *)
Lemma loop_body_kept (cs : clients) (inv : value)
      (k n : value) (e : string) (p : value) (info : invoice_info) :
  client_fields inv = Ok (k, n, e, p) ->
  classify now inv = Ok (Some info) ->
  hashable k = true ->
  loop_body now cs inv = Ok (upsert k n e p info cs).
Proof.
  intros Hc Hd Hk. unfold loop_body. rewrite Hc. simpl. rewrite Hd. simpl.
  apply insert_is_upsert. exact Hk.
Qed.

(** The two ways a turn of the loop ends without an exception. *)
Lemma loop_body_cases (cs cs' : clients) (inv : value) :
  loop_body now cs inv = Ok cs' ->
  exists k n e p,
    client_fields inv = Ok (k, n, e, p) /\
    ((classify now inv = Ok None /\ cs' = cs) \/
     (exists info, classify now inv = Ok (Some info) /\
                   hashable k = true /\ cs' = upsert k n e p info cs)).
Proof.
  unfold loop_body. intros H.
  destruct (client_fields inv) as [[[[k n] e] p]|x] eqn:Hc; simpl in H;
    [|discriminate].
  exists k, n, e, p. split; [reflexivity|].
  destruct (classify now inv) as [[info|]|x] eqn:Hd; simpl in H;
    [| |discriminate].
  - right. exists info. split; [reflexivity|].
    destruct (hashable k) eqn:Hk.
    + rewrite (insert_is_upsert k n e p info cs Hk) in H.
      split; [reflexivity|congruence].
    + unfold contains in H. rewrite Hk in H. discriminate.
  - left. split; [reflexivity|congruence].
Qed.

(** Induction on a run of the loop that ends without an exception:
    every turn skips its invoice or is an [upsert]. *)
Lemma for_invoices_run_ind (P : list value -> clients -> clients -> Prop) :
  (forall cs, P [] cs cs) ->
  (forall inv invs cs cs' k n e p,
      client_fields inv = Ok (k, n, e, p) ->
      classify now inv = Ok None ->
      for_invoices now invs cs = Ok cs' ->
      P invs cs cs' -> P (inv :: invs) cs cs') ->
  (forall inv invs cs cs' k n e p info,
      client_fields inv = Ok (k, n, e, p) ->
      classify now inv = Ok (Some info) ->
      hashable k = true ->
      for_invoices now invs (upsert k n e p info cs) = Ok cs' ->
      P invs (upsert k n e p info cs) cs' -> P (inv :: invs) cs cs') ->
  forall invs cs cs', for_invoices now invs cs = Ok cs' -> P invs cs cs'.
Proof.
  intros Hnil Hskip Hkeep.
  induction invs as [|inv invs IH]; simpl; intros cs cs' H.
  - injection H as <-. apply Hnil.
  - destruct (loop_body now cs inv) as [cs1|x] eqn:L; simpl in H;
      [|discriminate].
    apply loop_body_cases in L.
    destruct L as (k & n & e & p & Hc & [[Hd ->]|(info & Hd & Hk & ->)]).
    + apply (Hskip inv invs cs cs' k n e p Hc Hd H). apply IH. exact H.
    + apply (Hkeep inv invs cs cs' k n e p info Hc Hd Hk H). apply IH.
      exact H.
Qed.

Lemma for_invoices_app (l1 l2 : list value) (cs : clients) :
  for_invoices now (l1 ++ l2) cs =
  (cs' <- for_invoices now l1 cs ;; for_invoices now l2 cs').
Proof.
  revert cs. induction l1 as [|inv l1 IH]; intros cs; simpl; [reflexivity|].
  destruct (loop_body now cs inv); simpl; [apply IH|reflexivity].
Qed.

(** The run goes as if a skipped invoice were not in the input. *)
Lemma dropped_is_transparent (l1 l2 : list value)
      (cs : clients) (inv : value) (cf : value * value * string * value) :
  client_fields inv = Ok cf ->
  classify now inv = Ok None ->
  for_invoices now (l1 ++ inv :: l2) cs = for_invoices now (l1 ++ l2) cs.
Proof.
  intros Hc Hd. rewrite !for_invoices_app.
  destruct (for_invoices now l1 cs) as [cs1|x]; simpl; [|reflexivity].
  rewrite (loop_body_dropped cs1 inv cf Hc Hd). reflexivity.
Qed.

(** The keys of [clients] grow by the keys of the kept invoices, each
    at its first occurrence. *)
Lemma for_invoices_keys :
  forall invs cs cs',
    for_invoices now invs cs = Ok cs' ->
    map fst cs' = fold_left add_key (retained_keys now invs) (map fst cs).
Proof.
  apply for_invoices_run_ind.
  - reflexivity.
  - intros inv invs cs cs' k n e p Hc Hd _ IH. simpl.
    unfold retained_key. rewrite Hc, Hd. exact IH.
  - intros inv invs cs cs' k n e p info Hc Hd _ _ IH. simpl.
    unfold retained_key. rewrite Hc, Hd. simpl.
    rewrite <- (upsert_keys k n e p info cs). exact IH.
Qed.

(** A group that is there stays to the end of the run, with its
    contact fields, and its invoices stay at the front of its list. *)
Lemma for_invoices_frozen :
  forall invs cs cs',
    for_invoices now invs cs = Ok cs' ->
    forall k g,
      find_group k cs = Some g ->
      exists g',
        find_group k cs' = Some g' /\
        client_name g' = client_name g /\
        client_email g' = client_email g /\
        client_phone g' = client_phone g /\
        exists l, invoices g' = (invoices g ++ l)%list.
Proof.
  apply (for_invoices_run_ind
           (fun invs cs cs' =>
              forall k g,
                find_group k cs = Some g ->
                exists g',
                  find_group k cs' = Some g' /\
                  client_name g' = client_name g /\
                  client_email g' = client_email g /\
                  client_phone g' = client_phone g /\
                  exists l, invoices g' = (invoices g ++ l)%list)).
  - intros cs k g Hg. exists g. repeat split; auto.
    exists []. now rewrite app_nil_r.
  - intros inv invs cs cs' k n e p _ _ _ IH. exact IH.
  - intros inv invs cs cs' k n e p info _ _ _ _ IH k0 g Hg.
    destruct (find_group_upsert_frozen k n e p info k0 cs g Hg)
      as (g1 & Hg1 & Hn & He & Hp & Hi).
    destruct (IH k0 g1 Hg1) as (g' & Hg' & Hn' & He' & Hp' & l & Hl).
    exists g'. repeat split; try congruence.
    destruct Hi as [Hi|Hi]; rewrite Hi in Hl.
    + exists l. exact Hl.
    + exists (info :: l). rewrite Hl, <- app_assoc. reflexivity.
Qed.

(** A kept invoice is in the group of its key at the end of the run. *)
Lemma for_invoices_member :
  forall invs cs cs',
    for_invoices now invs cs = Ok cs' ->
    forall inv k n e p info,
      In inv invs ->
      client_fields inv = Ok (k, n, e, p) ->
      classify now inv = Ok (Some info) ->
      exists g, find_group k cs' = Some g /\ In info (invoices g).
Proof.
  apply (for_invoices_run_ind
           (fun invs cs cs' =>
              forall inv k n e p info,
                In inv invs ->
                client_fields inv = Ok (k, n, e, p) ->
                classify now inv = Ok (Some info) ->
                exists g, find_group k cs' = Some g /\ In info (invoices g))).
  - intros cs inv k n e p info [].
  - intros i0 invs cs cs' k0 n0 e0 p0 _ Hd0 _ IH inv k n e p info
           [->|Hin] Hc Hd.
    + rewrite Hd in Hd0. discriminate.
    + exact (IH inv k n e p info Hin Hc Hd).
  - intros i0 invs cs cs' k0 n0 e0 p0 info0 Hc0 Hd0 Hk0 Hrun IH
           inv k n e p info [->|Hin] Hc Hd.
    + rewrite Hc in Hc0. injection Hc0 as <- <- <- <-.
      rewrite Hd in Hd0. injection Hd0 as <-.
      pose proof (find_group_upsert_same k n e p info k cs
                    (key_eqb_refl k Hk0)) as F.
      destruct (for_invoices_frozen invs _ cs' Hrun k _ F)
        as (g' & Hg' & _ & _ & _ & l & Hl).
      exists g'. split; [exact Hg'|]. rewrite Hl. apply in_or_app. left.
      destruct (find_group k cs); simpl; [apply in_or_app; right|]; now left.
    + exact (IH inv k n e p info Hin Hc Hd).
Qed.

Lemma for_invoices_distinct :
  forall invs cs cs',
    for_invoices now invs cs = Ok cs' ->
    keys_distinct cs -> keys_distinct cs'.
Proof.
  apply (for_invoices_run_ind
           (fun _ cs cs' => keys_distinct cs -> keys_distinct cs')).
  - auto.
  - auto.
  - intros inv invs cs cs' k n e p info _ _ _ _ IH D.
    apply IH. apply upsert_keys_distinct. exact D.
Qed.

(** The invoices of a run that ends without an exception have client
    fields that can be read. *)
Lemma for_invoices_client_fields :
  forall invs cs cs',
    for_invoices now invs cs = Ok cs' ->
    forall inv, In inv invs ->
                exists k n e p, client_fields inv = Ok (k, n, e, p).
Proof.
  apply (for_invoices_run_ind
           (fun invs cs cs' =>
              forall inv, In inv invs ->
                          exists k n e p, client_fields inv = Ok (k, n, e, p))).
  - intros cs inv [].
  - intros i0 invs cs cs' k n e p Hc _ _ IH inv [->|Hin]; [|exact (IH inv Hin)].
    exists k, n, e, p. exact Hc.
  - intros i0 invs cs cs' k n e p info Hc _ _ _ IH inv [->|Hin];
      [|exact (IH inv Hin)].
    exists k, n, e, p. exact Hc.
Qed.

End Loop.

(* ================================================================== *)
(** ** Dates and instants *)

Lemma valid_date_bounds (y m d : Z) :
  valid_date y m d = true ->
  1 <= y <= 9999 /\ 1 <= m <= 12 /\ 1 <= d <= days_in_month y m.
Proof.
  unfold valid_date. intros H.
  repeat (apply andb_prop in H; destruct H as [H ?]).
  repeat match goal with
         | K : (_ <=? _) = true |- _ => apply Z.leb_le in K
         end.
  lia.
Qed.

Lemma month_cases (m : Z) :
  1 <= m <= 12 ->
  m = 1 \/ m = 2 \/ m = 3 \/ m = 4 \/ m = 5 \/ m = 6 \/
  m = 7 \/ m = 8 \/ m = 9 \/ m = 10 \/ m = 11 \/ m = 12.
Proof. lia. Qed.

(** The day of the year of a date lies in its year. *)
Lemma day_of_year_bounds (y m d : Z) :
  1 <= m <= 12 -> 1 <= d <= days_in_month y m ->
  1 <= days_before_month y m + d <= 365 + (if is_leap y then 1 else 0).
Proof.
  intros Hm Hd. unfold days_before_month, days_in_month in *.
  destruct (is_leap y);
    destruct (month_cases m Hm) as [->|[->|[->|[->|[->|[->|[->|[->|[->|[->|[->| ->]]]]]]]]]]];
    cbn -[Z.add] in *; lia.
Qed.

(** Within a year the days of a month come before those of the next. *)
Lemma day_of_year_month_lt (y m1 d1 m2 d2 : Z) :
  1 <= m1 <= 12 -> 1 <= d1 <= days_in_month y m1 ->
  1 <= m2 <= 12 -> 1 <= d2 <= days_in_month y m2 ->
  m1 < m2 ->
  days_before_month y m1 + d1 < days_before_month y m2 + d2.
Proof.
  intros Hm1 Hd1 Hm2 Hd2 Hlt. unfold days_before_month, days_in_month in *.
  destruct (is_leap y);
    destruct (month_cases m1 Hm1) as [->|[->|[->|[->|[->|[->|[->|[->|[->|[->|[->| ->]]]]]]]]]]];
    cbn -[Z.add] in Hd1 |- *;
    destruct (month_cases m2 Hm2) as [->|[->|[->|[->|[->|[->|[->|[->|[->|[->|[->| ->]]]]]]]]]]];
    cbn -[Z.add] in Hd2 |- *; lia.
Qed.

Lemma days_before_next_year (y : Z) :
  days_before_year (y + 1) =
  days_before_year y + 365 + (if is_leap y then 1 else 0).
Proof.
  unfold days_before_year, is_leap.
  replace (y + 1 - 1) with y by lia.
  destruct (Z.eqb_spec (y mod 4) 0), (Z.eqb_spec (y mod 100) 0),
    (Z.eqb_spec (y mod 400) 0); cbn [andb orb negb];
    Z.div_mod_to_equations; lia.
Qed.

Lemma days_before_year_mono (y1 y2 : Z) :
  y1 <= y2 -> days_before_year y1 <= days_before_year y2.
Proof. unfold days_before_year. Z.div_mod_to_equations. lia. Qed.

(** The day count follows the order of year, month and day. *)
Lemma ordinal_lt (y1 m1 d1 y2 m2 d2 : Z) :
  valid_date y1 m1 d1 = true -> valid_date y2 m2 d2 = true ->
  y1 < y2 \/ (y1 = y2 /\ (m1 < m2 \/ (m1 = m2 /\ d1 < d2))) ->
  ordinal y1 m1 d1 < ordinal y2 m2 d2.
Proof.
  intros V1 V2 H.
  apply valid_date_bounds in V1. destruct V1 as (Y1 & M1 & D1).
  apply valid_date_bounds in V2. destruct V2 as (Y2 & M2 & D2).
  unfold ordinal.
  destruct H as [H|[-> [H|[-> H]]]].
  - pose proof (day_of_year_bounds y1 m1 d1 M1 D1).
    pose proof (day_of_year_bounds y2 m2 d2 M2 D2).
    pose proof (days_before_next_year y1).
    assert (L : y1 + 1 <= y2) by lia.
    pose proof (days_before_year_mono (y1 + 1) y2 L). lia.
  - pose proof (day_of_year_month_lt y2 m1 d1 m2 d2 M1 D1 M2 D2 H). lia.
  - lia.
Qed.

(** [<] on datetimes that exist is the order of their instants. *)
Lemma datetime_lt_instant (a b : datetime) :
  valid_datetime a = true -> valid_datetime b = true ->
  datetime_lt a b = (instant a <? instant b).
Proof.
  destruct a as [y1 m1 d1 h1 mi1 s1 u1], b as [y2 m2 d2 h2 mi2 s2 u2].
  unfold valid_datetime, datetime_lt, instant. simpl.
  intros Va Vb.
  do 8 (apply andb_prop in Va; destruct Va as [Va ?]).
  do 8 (apply andb_prop in Vb; destruct Vb as [Vb ?]).
  repeat match goal with
         | K : (_ <=? _) = true |- _ => apply Z.leb_le in K
         | K : (_ <? _) = true |- _ => apply Z.ltb_lt in K
         end.
  pose proof (ordinal_lt y1 m1 d1 y2 m2 d2 Va Vb) as F.
  pose proof (ordinal_lt y2 m2 d2 y1 m1 d1 Vb Va) as G.
  assert (E : y1 = y2 -> m1 = m2 -> d1 = d2 ->
              ordinal y1 m1 d1 = ordinal y2 m2 d2) by (intros; subst; reflexivity).
  revert F G E.
  generalize (ordinal y1 m1 d1) (ordinal y2 m2 d2). intros o1 o2 F G E.
  destruct (Z.compare_spec y1 y2);
    [destruct (Z.compare_spec m1 m2);
     [destruct (Z.compare_spec d1 d2);
      [destruct (Z.compare_spec h1 h2);
       [destruct (Z.compare_spec mi1 mi2);
        [destruct (Z.compare_spec s1 s2);
         [destruct (Z.ltb_spec u1 u2)| |]| |]| |]| |]| |]| |];
    symmetry; (apply Z.ltb_lt || apply Z.ltb_ge); lia.
Qed.

(* ================================================================== *)
(** ** [strptime] *)

(** [strptime] gives midnight of a date that exists, or a ValueError. *)
Lemma strptime_str_cases (s : string) :
  (exists y m d, strptime_str s = Ok (mk_datetime y m d 0 0 0 0) /\
                 valid_date y m d = true) \/
  strptime_str s = Raise ValueError.
Proof.
  unfold strptime_str.
  destruct (match_format s) as [[[[y m] d] r]|]; [|right; reflexivity].
  destruct (negb (String.eqb r "")); [right; reflexivity|].
  destruct (valid_date y m d) eqn:V; [left|right; reflexivity].
  exists y, m, d. split; [reflexivity|exact V].
Qed.

Lemma strptime_str_valid (s : string) (d : datetime) :
  strptime_str s = Ok d -> valid_datetime d = true.
Proof.
  intros H. destruct (strptime_str_cases s) as [(y & m & dd & E & V)|E];
    rewrite E in H; [|discriminate].
  injection H as <-. unfold valid_datetime. simpl. rewrite V. reflexivity.
Qed.

Lemma digit_bounds (c : ascii) (v : Z) : digit c = Some v -> 0 <= v <= 9.
Proof.
  unfold digit. cbv zeta.
  destruct (Z.leb_spec 48 (Z.of_N (N_of_ascii c)));
    destruct (Z.leb_spec (Z.of_N (N_of_ascii c)) 57); simpl;
    intros E; try discriminate.
  injection E as <-. lia.
Qed.

Lemma digit_in_hit (lo hi : Z) (c : ascii) (v : Z) :
  digit c = Some v -> lo <= v <= hi -> digit_in lo hi c = Some v.
Proof.
  intros E H. unfold digit_in. rewrite E.
  destruct (Z.leb_spec lo v); destruct (Z.leb_spec v hi); simpl;
    (reflexivity || lia).
Qed.

Lemma digit_in_miss (lo hi : Z) (c : ascii) (v : Z) :
  digit c = Some v -> v < lo \/ hi < v -> digit_in lo hi c = None.
Proof.
  intros E H. unfold digit_in. rewrite E.
  destruct (Z.leb_spec lo v); destruct (Z.leb_spec v hi); simpl;
    (reflexivity || lia).
Qed.

Lemma lit_hit {A : Type} (c : ascii) (k : string -> option A) (r : string) :
  lit c k (String c r) = k r.
Proof. unfold lit. rewrite Ascii.eqb_refl. reflexivity. Qed.

(** A month of two digits is read by the first or the second
    alternative of its group. *)
Lemma re_m_ok {A : Type} (k : Z -> string -> option A) (c1 c2 : ascii)
      (r : string) (e f : Z) (res : A) :
  digit c1 = Some e -> digit c2 = Some f ->
  1 <= 10 * e + f <= 12 ->
  k (10 * e + f) r = Some res ->
  re_m k (String c1 (String c2 r)) = Some res.
Proof.
  intros E1 E2 B K.
  pose proof (digit_bounds c1 e E1). pose proof (digit_bounds c2 f E2).
  unfold re_m, two.
  destruct (Z.eq_dec e 1) as [He|He].
  - rewrite (digit_in_hit 1 1 c1 e E1), (digit_in_hit 0 2 c2 f E2) by lia.
    rewrite K. reflexivity.
  - rewrite (digit_in_miss 1 1 c1 e E1) by lia.
    rewrite (digit_in_hit 0 0 c1 e E1), (digit_in_hit 1 9 c2 f E2) by lia.
    rewrite K. reflexivity.
Qed.

(** A day of two digits is read by one of the first three
    alternatives of its group. *)
Lemma re_d_ok {A : Type} (k : Z -> string -> option A) (c1 c2 : ascii)
      (r : string) (g h : Z) (res : A) :
  digit c1 = Some g -> digit c2 = Some h ->
  1 <= 10 * g + h <= 31 ->
  k (10 * g + h) r = Some res ->
  re_d k (String c1 (String c2 r)) = Some res.
Proof.
  intros E1 E2 B K.
  pose proof (digit_bounds c1 g E1). pose proof (digit_bounds c2 h E2).
  unfold re_d, two.
  destruct (Z.eq_dec g 3) as [Hg|Hg].
  - rewrite (digit_in_hit 3 3 c1 g E1), (digit_in_hit 0 1 c2 h E2) by lia.
    rewrite K. reflexivity.
  - rewrite (digit_in_miss 3 3 c1 g E1) by lia.
    destruct (Z.eq_dec g 0) as [Hz|Hz].
    + rewrite (digit_in_miss 1 2 c1 g E1) by lia.
      rewrite (digit_in_hit 0 0 c1 g E1), (digit_in_hit 1 9 c2 h E2) by lia.
      rewrite K. reflexivity.
    + rewrite (digit_in_hit 1 2 c1 g E1), (digit_in_hit 0 9 c2 h E2) by lia.
      rewrite K. reflexivity.
Qed.

Lemma days_in_month_le_31 (y m : Z) : days_in_month y m <= 31.
Proof.
  unfold days_in_month.
  destruct (m =? 2); [destruct (is_leap y); lia|].
  destruct ((m =? 4) || (m =? 6) || (m =? 9) || (m =? 11)); lia.
Qed.

(** Every date written [YYYY-MM-DD] is accepted, and read as itself. *)
Lemma iso_date_strptime (s : string) :
  iso_date s = true -> exists d, strptime_str s = Ok d.
Proof.
  unfold iso_date. intros H.
  destruct s as [|y1 s]; [discriminate|].
  destruct s as [|y2 s]; [discriminate|].
  destruct s as [|y3 s]; [discriminate|].
  destruct s as [|y4 s]; [discriminate|].
  destruct s as [|h1 s]; [discriminate|].
  destruct s as [|m1 s]; [discriminate|].
  destruct s as [|m2 s]; [discriminate|].
  destruct s as [|h2 s]; [discriminate|].
  destruct s as [|d1 s]; [discriminate|].
  destruct s as [|d2 s]; [discriminate|].
  destruct s as [|x s]; [|discriminate].
  cbv beta iota in H.
  destruct (digit y1) as [a|] eqn:Ea; [|discriminate].
  destruct (digit y2) as [b|] eqn:Eb; [|discriminate].
  destruct (digit y3) as [c|] eqn:Ec; [|discriminate].
  destruct (digit y4) as [d|] eqn:Ed; [|discriminate].
  destruct (digit m1) as [e|] eqn:Ee; [|discriminate].
  destruct (digit m2) as [f|] eqn:Ef; [|discriminate].
  destruct (digit d1) as [g|] eqn:Eg; [|discriminate].
  destruct (digit d2) as [h|] eqn:Eh; [|discriminate].
  apply andb_prop in H. destruct H as [H V].
  apply andb_prop in H. destruct H as [H1 H2].
  apply Ascii.eqb_eq in H1, H2. subst h1 h2.
  pose proof (valid_date_bounds _ _ _ V) as (_ & BM & BD).
  pose proof (days_in_month_le_31 (1000 * a + 100 * b + 10 * c + d)
                                  (10 * e + f)).
  exists (mk_datetime (1000 * a + 100 * b + 10 * c + d) (10 * e + f)
                      (10 * g + h) 0 0 0 0).
  unfold strptime_str.
  assert (MF : match_format
                 (String y1 (String y2 (String y3 (String y4 (String "-"
                   (String m1 (String m2 (String "-"
                     (String d1 (String d2 "")))))))))) =
               Some (1000 * a + 100 * b + 10 * c + d, 10 * e + f,
                     10 * g + h, "")).
  { unfold match_format, re_Y. rewrite Ea, Eb, Ec, Ed. rewrite lit_hit.
    apply (re_m_ok _ m1 m2 _ e f); auto.
    rewrite lit_hit.
    apply (re_d_ok _ d1 d2 _ g h); auto. lia. }
  rewrite MF. simpl negb. cbv iota. rewrite V. reflexivity.
Qed.

(* ================================================================== *)
(** ** Classification *)

(** With no [dueDate] of its own and no [items], or a first item
    without one, an invoice is skipped. *)
Lemma no_due_date_dropped (now : datetime) (d : list (string * value)) :
  lookup d "dueDate" = None ->
  lookup d "items" = None \/
  (exists it rest, lookup d "items" = Some (VList (VDict it :: rest)) /\
                   lookup it "dueDate" = None) ->
  classify now (VDict d) = Ok None.
Proof.
  intros Ht Hi. unfold classify, due_date_str. simpl. rewrite Ht. simpl.
  destruct Hi as [Hi|(it & rest & Hi & Hn)]; rewrite Hi; simpl.
  - reflexivity.
  - rewrite Hn. reflexivity.
Qed.

(** An invoice whose due date [strptime] accepts is classified: its
    status is set by [due_date < now] and its [due_date] is the whole
    string, not the ten characters that were parsed. *)
Lemma classify_parsed (now : datetime) (inv : value) (s : string)
      (d : datetime) (he : value) :
  due_date_str inv = Ok (VStr s) ->
  strptime_str (substring 0 10 s) = Ok d ->
  (u <- get inv "url" (VDict []) ;; get u "he" VNone) = Ok he ->
  exists i a de cd,
    classify now inv =
    Ok (Some (mk_invoice_info
                (if datetime_lt d now then "past_due" else "to_be_paid")
                i a de he cd (VStr s))).
Proof.
  intros Hs Hp Hu.
  destruct inv as [| | | | |kvs]; try discriminate.
  unfold classify. rewrite Hs. simpl.
  assert (T : String.eqb s "" = false).
  { destruct s; [discriminate|reflexivity]. }
  rewrite T. simpl.
  unfold parse_due_date. simpl. rewrite Hp. simpl.
  simpl in Hu. rewrite Hu. simpl.
  do 4 eexists. reflexivity.
Qed.

(** An invoice whose due date [strptime] does not accept is skipped. *)
Lemma classify_unparsed (now : datetime) (inv : value) (s : string) :
  due_date_str inv = Ok (VStr s) ->
  (forall d, strptime_str (substring 0 10 s) <> Ok d) ->
  classify now inv = Ok None.
Proof.
  intros Hs Hp. unfold classify. rewrite Hs. simpl.
  destruct (String.eqb s ""); simpl; [reflexivity|].
  unfold parse_due_date. simpl.
  destruct (strptime_str_cases (substring 0 10 s))
    as [(y & m & dd & E & _)|E].
  - exfalso. exact (Hp _ E).
  - rewrite E. reflexivity.
Qed.

(* ================================================================== *)
(** ** Invoices of the expected shape *)

Lemma well_formed_client_fields (d : list (string * value)) :
  opt_ok is_client (lookup d "client") = true ->
  exists k n e p,
    client_fields (VDict d) = Ok (k, n, e, p) /\ hashable k = true.
Proof.
  unfold client_fields. simpl.
  destruct (lookup d "client") as [c|]; simpl.
  - destruct c as [| | | | |c]; try discriminate. simpl. intros H.
    apply andb_prop in H. destruct H as [Hi He].
    destruct (lookup c "emails") as [[| | | |xs|]|]; simpl in He;
      try discriminate;
      (destruct (lookup c "id") as [[| | | | |]|]; simpl in Hi;
       try discriminate; simpl);
      try (destruct (all_str xs); [|discriminate]; simpl);
      do 4 eexists; split; reflexivity.
  - intros _. do 4 eexists. split; reflexivity.
Qed.

Lemma well_formed_due_date_str (d : list (string * value)) :
  opt_ok is_date_field (lookup d "dueDate") = true ->
  opt_ok (fun v => match v with
                   | VList xs => forallb is_item xs
                   | _ => false end) (lookup d "items") = true ->
  (exists v, due_date_str (VDict d) = Ok v /\ is_date_field v = true) \/
  (due_date_str (VDict d) = Raise IndexError /\
   lookup d "items" = Some (VList []) /\
   truthy (match lookup d "dueDate" with Some v => v | None => VNone end)
   = false).
Proof.
  unfold due_date_str. simpl. intros Ht Hi.
  destruct (truthy (match lookup d "dueDate" with
                    | Some v => v | None => VNone end)) eqn:T.
  - left. eexists. split; [reflexivity|].
    destruct (lookup d "dueDate"); [exact Ht|discriminate].
  - destruct (lookup d "items") as [[| | | |[|x xs]|]|]; simpl in Hi;
      try discriminate; simpl.
    + right. auto.
    + apply andb_prop in Hi. destruct Hi as [Hx _].
      destruct x as [| | | | |it]; try discriminate. simpl. left.
      eexists. split; [reflexivity|].
      simpl in Hx. destruct (lookup it "dueDate"); [exact Hx|reflexivity].
    + left. exists VNone. split; reflexivity.
Qed.

(** On an invoice of the expected shape a turn of the loop raises
    nothing, but for the IndexError of a falsy [dueDate] with an empty
    [items] list. *)
Lemma well_formed_loop_body (now : datetime) (cs : clients) (inv : value) :
  well_formed inv = true ->
  (exists cs', loop_body now cs inv = Ok cs') \/
  (loop_body now cs inv = Raise IndexError /\
   exists d, inv = VDict d /\
             lookup d "items" = Some (VList []) /\
             truthy (match lookup d "dueDate" with
                     | Some v => v | None => VNone end) = false).
Proof.
  destruct inv as [| | | | |d]; try discriminate. simpl. intros H.
  apply andb_prop in H. destruct H as [H Hu].
  apply andb_prop in H. destruct H as [H Hi].
  apply andb_prop in H. destruct H as [Hc Ht].
  destruct (well_formed_client_fields d Hc) as (k & n & e & p & Ec & Hk).
  destruct (well_formed_due_date_str d Ht Hi)
    as [(v & Ev & Hv)|(Ev & Ei & Et)].
  - left.
    assert (C : exists r, classify now (VDict d) = Ok r).
    { destruct v as [| | |s| |]; try discriminate.
      - exists None. unfold classify. rewrite Ev. reflexivity.
      - destruct (strptime_str_cases (substring 0 10 s))
          as [(y & m & dd & E & _)|E].
        + assert (U : exists he,
                     (u <- get (VDict d) "url" (VDict []) ;;
                      get u "he" VNone) = Ok he).
          { simpl. destruct (lookup d "url") as [[| | | | |u]|];
              simpl in Hu; try discriminate; eexists; reflexivity. }
          destruct U as (he & U).
          destruct (classify_parsed now (VDict d) s _ he Ev E U)
            as (i & a & de & cd & C).
          eexists. exact C.
        + exists None. apply (classify_unparsed now (VDict d) s Ev).
          intros d0 E0. rewrite E in E0. discriminate. }
    destruct C as ([info|] & C).
    + eexists. exact (loop_body_kept now cs (VDict d) k n e p info Ec C Hk).
    + eexists. exact (loop_body_dropped now cs (VDict d) _ Ec C).
  - right. split; [|exists d; auto].
    unfold loop_body. rewrite Ec. simpl. unfold classify. rewrite Ev.
    reflexivity.
Qed.

(* ================================================================== *)
(** ** Invoices without a due date *)

(** An invoice with no due date to be found does not show in the
    table: the run gives what it gives without it. *)
Corollary no_due_date_not_in_table (now : datetime) (l1 l2 : list value)
          (d : list (string * value)) (cf : value * value * string * value) :
  client_fields (VDict d) = Ok cf ->
  lookup d "dueDate" = None ->
  lookup d "items" = None \/
  (exists it rest, lookup d "items" = Some (VList (VDict it :: rest)) /\
                   lookup it "dueDate" = None) ->
  get_grouped_invoices now (l1 ++ VDict d :: l2) =
  get_grouped_invoices now (l1 ++ l2).
Proof.
  intros Hc Ht Hi. unfold get_grouped_invoices, aggregate.
  rewrite (dropped_is_transparent now l1 l2 [] (VDict d) cf Hc
             (no_due_date_dropped now d Ht Hi)).
  reflexivity.
Qed.

(** C1, where the code departs from it: an invoice with no [dueDate]
    and an empty [items] list is not skipped.  Line 92 takes [[0]] of
    the empty list, the IndexError ends the run, and the invoices that
    were classified before it are lost with it. *)
Theorem C1_empty_items_raises (now : datetime) :
  get_grouped_invoices now [VDict [("items", VList [])]] = Raise IndexError /\
  get_grouped_invoices now [sample_invoice; VDict [("items", VList [])]]
  = Raise IndexError.
Proof. split; reflexivity. Qed.

(** The invoice that ends the run there has the expected shape. *)
Example empty_items_well_formed :
  well_formed (VDict [("items", VList [])]) = true.
Proof. reflexivity. Qed.

(* ================================================================== *)
(** ** Status *)

(** C2: an invoice whose due date parses to an instant before [now]
    is classified past_due, and one whose due date parses to the
    instant of [now] or a later one is classified to_be_paid; a due
    date equal to [now] in every field is to_be_paid. *)
Theorem C2_status_boundary (now : datetime) (inv : value) (s : string)
        (d : datetime) (he : value) :
  valid_datetime now = true ->
  due_date_str inv = Ok (VStr s) ->
  strptime_str (substring 0 10 s) = Ok d ->
  (u <- get inv "url" (VDict []) ;; get u "he" VNone) = Ok he ->
  exists info,
    classify now inv = Ok (Some info) /\
    (instant d < instant now -> status info = "past_due") /\
    (instant now <= instant d -> status info = "to_be_paid") /\
    (d = now -> status info = "to_be_paid").
Proof.
  intros Vn Hs Hp Hu.
  destruct (classify_parsed now inv s d he Hs Hp Hu) as (i & a & de & cd & C).
  eexists. split; [exact C|]. simpl status.
  rewrite (datetime_lt_instant d now (strptime_str_valid _ d Hp) Vn).
  destruct (Z.ltb_spec (instant d) (instant now)); repeat split;
    intros; subst; (reflexivity || lia).
Qed.

Lemma C2_status_boundary_witness :
  (exists info, classify sample_due sample_invoice = Ok (Some info) /\
                status info = "to_be_paid") /\
  (exists info, classify sample_after_due sample_invoice = Ok (Some info) /\
                status info = "past_due").
Proof.
  split.
  - destruct (C2_status_boundary sample_due sample_invoice "2000-01-01"
                sample_due VNone eq_refl eq_refl eq_refl eq_refl)
      as (info & C & _ & _ & E).
    exists info. split; [exact C|exact (E eq_refl)].
  - destruct (C2_status_boundary sample_after_due sample_invoice "2000-01-01"
                sample_due VNone eq_refl eq_refl eq_refl eq_refl)
      as (info & C & P & _ & _).
    exists info. split; [exact C|]. apply P. vm_compute. reflexivity.
Defined.

(* ================================================================== *)
(** ** Due dates that do not parse *)

(** C3 as it is worded, with the dates written [YYYY-MM-DD] for the
    strings that parse, does not hold: 2000-1-1 is not such a date and
    [strptime] reads it as the first of January, so the invoice is
    kept. *)
Lemma C3_counterexample :
  ~ (forall (now : datetime) (cs : clients) (inv : value) (s : string),
       due_date_str inv = Ok (VStr s) ->
       iso_date (substring 0 10 s) = false ->
       loop_body now cs inv = Ok cs).
Proof.
  intros H.
  specialize (H sample_now [] sample_short_date "2000-1-1" eq_refl eq_refl).
  vm_compute in H. discriminate H.
Qed.

(** C3, amended: when [strptime] does not accept the first ten
    characters of the due date for the format [%Y-%m-%d], the invoice
    is skipped and [clients] stays as it is; when it accepts them, the
    invoice is put in its group with the whole string as [due_date].
    [strptime] accepts every date written [YYYY-MM-DD] (and months and
    days of one digit besides). *)
Theorem C3_unparseable_dropped (now : datetime) (cs : clients) (inv : value)
        (s : string) (k n : value) (e : string) (p : value) :
  client_fields inv = Ok (k, n, e, p) ->
  due_date_str inv = Ok (VStr s) ->
  ((forall d, strptime_str (substring 0 10 s) <> Ok d) ->
   classify now inv = Ok None /\ loop_body now cs inv = Ok cs) /\
  (forall d he,
      strptime_str (substring 0 10 s) = Ok d ->
      (u <- get inv "url" (VDict []) ;; get u "he" VNone) = Ok he ->
      hashable k = true ->
      exists info,
        classify now inv = Ok (Some info) /\
        due_date info = VStr s /\
        loop_body now cs inv = Ok (upsert k n e p info cs)) /\
  (iso_date (substring 0 10 s) = true ->
   exists d, strptime_str (substring 0 10 s) = Ok d).
Proof.
  intros Hc Hs. split; [|split].
  - intros Hp. pose proof (classify_unparsed now inv s Hs Hp) as D.
    split; [exact D|]. exact (loop_body_dropped now cs inv _ Hc D).
  - intros d he Hp Hu Hk.
    destruct (classify_parsed now inv s d he Hs Hp Hu)
      as (i & a & de & cd & C).
    eexists. split; [exact C|]. split; [reflexivity|].
    exact (loop_body_kept now cs inv k n e p _ Hc C Hk).
  - apply iso_date_strptime.
Qed.

Lemma C3_unparseable_dropped_witness :
  loop_body sample_now [] sample_bad_date = Ok [] /\
  exists info,
    due_date info = VStr "2000-1-1" /\
    loop_body sample_now [] sample_short_date =
    Ok [(VStr "unknown", mk_group (VStr "Unknown") "" (VStr "") [info])].
Proof.
  split.
  - destruct (C3_unparseable_dropped sample_now [] sample_bad_date
                "2024-02-30T10:00:00"
                (VStr "unknown") (VStr "Unknown") "" (VStr "")
                eq_refl eq_refl) as (D & _ & _).
    apply D. intros d. vm_compute. discriminate.
  - destruct (C3_unparseable_dropped sample_now [] sample_short_date
                "2000-1-1"
                (VStr "unknown") (VStr "Unknown") "" (VStr "")
                eq_refl eq_refl) as (_ & K & _).
    destruct (K (mk_datetime 2000 1 1 0 0 0 0) VNone eq_refl eq_refl eq_refl)
      as (info & _ & Hd & L).
    exists info. split; [exact Hd|exact L].
Defined.

(** What [strptime] does with some strings of dates. *)
Example strptime_samples :
  map (fun s => match strptime_str s with
                | Ok d => Some (year d, month d, day d)
                | Raise _ => None
                end)
      ["2000-01-01"; "2000-02-29"; "2000-1-1"; "2000-1-15"; "2000-01- 1";
       "2001-02-29"; "0000-01-01"; "2000-13-01"; "2000-01-35";
       "2000-1-1T0"; "01/02/2000"; ""]
  = [Some (2000, 1, 1); Some (2000, 2, 29); Some (2000, 1, 1);
     Some (2000, 1, 15); Some (2000, 1, 1);
     None; None; None; None; None; None; None].
Proof. vm_compute. reflexivity. Qed.

(* ================================================================== *)
(** ** Header and rows *)

Lemma invoice_headers_length (n : nat) :
  length (invoice_headers n) = (7 * n)%nat.
Proof.
  assert (H : forall a, length (flat_map slot_headers (seq a n)) = (7 * n)%nat).
  { induction n as [|n IH]; intros a; simpl; [reflexivity|].
    rewrite IH. lia. }
  apply H.
Qed.

Lemma headers_length (cs : clients) :
  length (headers cs) = (4 + 7 * max_invoices cs)%nat.
Proof.
  unfold headers. rewrite length_app, invoice_headers_length. reflexivity.
Qed.

Lemma invoice_cells_length (l : list invoice_info) :
  length (flat_map invoice_cells l) = (7 * length l)%nat.
Proof.
  induction l as [|i l IH]; simpl; [reflexivity|]. rewrite IH. lia.
Qed.

(** No client has more invoices than [max_invoices]. *)
Lemma max_invoices_bound (cs : clients) (c : value * group) :
  In c cs -> (length (invoices (snd c)) <= max_invoices cs)%nat.
Proof.
  intros Hin.
  assert (H : (list_max (map (fun c => length (invoices (snd c))) cs)
               <= max_invoices cs)%nat).
  { unfold max_invoices. destruct cs; simpl; lia. }
  rewrite list_max_le, Forall_forall in H.
  apply H. apply in_map_iff. exists c. split; [reflexivity|exact Hin].
Qed.

(** With a group at all, some client has [max_invoices] invoices. *)
Lemma max_invoices_attained (cs : clients) :
  cs = [] /\ max_invoices cs = 0%nat \/
  exists c, In c cs /\ length (invoices (snd c)) = max_invoices cs.
Proof.
  destruct cs as [|c0 cs]; [left; split; reflexivity|right].
  assert (H : max_invoices (c0 :: cs) =
              list_max (map (fun c => length (invoices (snd c))) (c0 :: cs)))
    by reflexivity.
  rewrite H. clear H. revert c0.
  induction cs as [|c1 cs IH]; intros c0.
  - exists c0. split; [now left|]. simpl. lia.
  - destruct (IH c1) as (c & Hin & Hc).
    change (list_max (map (fun c => length (invoices (snd c)))
                          (c0 :: c1 :: cs)))
      with (Nat.max (length (invoices (snd c0)))
                    (list_max (map (fun c => length (invoices (snd c)))
                                   (c1 :: cs)))).
    destruct (Nat.max_spec (length (invoices (snd c0)))
                (list_max (map (fun c => length (invoices (snd c)))
                               (c1 :: cs)))) as [[_ ->]|[_ ->]].
    + exists c. split; [now right|exact Hc].
    + exists c0. split; [now left|reflexivity].
Qed.

(** C4: a row is the four client fields, then for each of the
    client's invoices in the order they are stored its status, id,
    amount, description, download_link, create_date and due_date, and
    empty strings after them, seven for each slot the client does not
    fill; its length is 4 + 7 * max_invoices, the length of the
    header, where max_invoices is the largest number of invoices of
    a client. *)
Theorem C4_row_shape (cs : clients) :
  snd (flatten cs) =
  map (fun c =>
         [fst c; client_name (snd c); VStr (client_email (snd c));
          client_phone (snd c)]
         ++ flat_map (fun i =>
                        [VStr (status i); invoice_id i; amount i;
                         description i; download_link i; create_date i;
                         due_date i])
                     (invoices (snd c))
         ++ repeat (VStr "")
                   (7 * (max_invoices cs - length (invoices (snd c)))))%list
      cs
  /\ Forall (fun row => length row = (4 + 7 * max_invoices cs)%nat)
            (snd (flatten cs))
  /\ length (fst (flatten cs)) = (4 + 7 * max_invoices cs)%nat
  /\ Forall (fun c => (length (invoices (snd c)) <= max_invoices cs)%nat) cs
  /\ (cs = [] /\ max_invoices cs = 0%nat \/
      exists c, In c cs /\ length (invoices (snd c)) = max_invoices cs).
Proof.
  assert (E : forall c,
             row_of (length (headers cs)) c =
             ([fst c; client_name (snd c); VStr (client_email (snd c));
               client_phone (snd c)]
              ++ flat_map invoice_cells (invoices (snd c))
              ++ repeat (VStr "")
                   (7 * (max_invoices cs - length (invoices (snd c)))))%list).
  { intros c. unfold row_of. rewrite <- app_assoc. do 2 f_equal.
    rewrite length_app, invoice_cells_length, headers_length. simpl length.
    f_equal. lia. }
  cbn [flatten fst snd].
  split; [|split; [|split; [|split]]].
  - unfold rows. apply map_ext. exact E.
  - unfold rows. apply Forall_forall. intros row Hin.
    apply in_map_iff in Hin. destruct Hin as (c & <- & Hc).
    rewrite E. pose proof (max_invoices_bound cs c Hc) as B.
    rewrite !length_app, invoice_cells_length, repeat_length. simpl length.
    lia.
  - apply headers_length.
  - apply Forall_forall. intros c Hc. exact (max_invoices_bound cs c Hc).
  - apply max_invoices_attained.
Qed.

(** C5: the header is the four client columns and then, for each slot
    i from 1 to max_invoices, the seven columns invoice{i}_status,
    _id, _amount, _description, _download_link, _create_date and
    _due_date; with no group, the empty input among the cases, the
    table is the four client columns and no row. *)
Theorem C5_header_layout (cs : clients) (now : datetime) :
  headers cs =
  List.app ["client_id"; "client_name"; "client_email"; "client_phone"]
    (flat_map (fun i =>
        ["invoice" ++ str_of_nat i ++ "_status";
         "invoice" ++ str_of_nat i ++ "_id";
         "invoice" ++ str_of_nat i ++ "_amount";
         "invoice" ++ str_of_nat i ++ "_description";
         "invoice" ++ str_of_nat i ++ "_download_link";
         "invoice" ++ str_of_nat i ++ "_create_date";
         "invoice" ++ str_of_nat i ++ "_due_date"])
        (seq 1 (max_invoices cs)))
  /\ length (headers cs) = (4 + 7 * max_invoices cs)%nat
  /\ flatten [] =
     (["client_id"; "client_name"; "client_email"; "client_phone"], [])
  /\ get_grouped_invoices now [] =
     Ok (["client_id"; "client_name"; "client_email"; "client_phone"], []).
Proof.
  split; [|split; [apply headers_length|split; reflexivity]].
  unfold headers, invoice_headers, base_headers, slot_headers. reflexivity.
Qed.

(** The slot numbers are written in decimal, without padding. *)
Example str_of_nat_samples :
  map str_of_nat [1; 2; 9; 10; 11; 120]%nat = ["1"; "2"; "9"; "10"; "11"; "120"].
Proof. reflexivity. Qed.

(* ================================================================== *)
(** ** Client groups *)

Lemma no_client_id_key (inv k n : value) (e : string) (p : value) :
  no_client_id inv = true ->
  client_fields inv = Ok (k, n, e, p) ->
  k = VStr "unknown".
Proof.
  unfold no_client_id, client_fields.
  destruct inv as [| | | | |d]; try discriminate. simpl.
  destruct (lookup d "client") as [c|]; simpl.
  - destruct c as [| | | | |c]; try discriminate. simpl.
    destruct (lookup c "id"); [discriminate|]. intros _.
    destruct (join ", " _); simpl; [|discriminate]. congruence.
  - congruence.
Qed.

(** C6: an invoice the loop keeps whose client sub-object, or the id
    in it, is missing goes to the group with the key "unknown", and
    the run has one such group for all of them. *)
Theorem C6_unknown_client (now : datetime) (invs : list value)
        (cs : clients) (inv : value) (info : invoice_info) :
  aggregate now invs = Ok cs ->
  In inv invs ->
  no_client_id inv = true ->
  classify now inv = Ok (Some info) ->
  retained_key now inv = Some (VStr "unknown") /\
  (exists g, find_group (VStr "unknown") cs = Some g /\ In info (invoices g)) /\
  groups_keyed (VStr "unknown") cs = 1%nat.
Proof.
  unfold aggregate. intros H Hin Hno Hd.
  destruct (for_invoices_client_fields now invs [] cs H inv Hin)
    as (k & n & e & p & Hc).
  pose proof (no_client_id_key inv k n e p Hno Hc) as ->.
  destruct (for_invoices_member now invs [] cs H inv _ n e p info Hin Hc Hd)
    as (g & Hg & Hi).
  split; [unfold retained_key; rewrite Hc, Hd; reflexivity|].
  split; [exists g; split; assumption|].
  pose proof (for_invoices_distinct now invs [] cs H keys_distinct_nil
                (VStr "unknown")).
  pose proof (find_group_groups_keyed _ cs g Hg). lia.
Qed.

Lemma C6_unknown_client_witness :
  exists cs,
    aggregate sample_now
      [sample_no_client; sample_invoice; sample_no_client_id] = Ok cs /\
    retained_key sample_now sample_no_client_id = Some (VStr "unknown") /\
    (exists g, find_group (VStr "unknown") cs = Some g /\
               In (mk_invoice_info "to_be_paid" (VStr "b") VNone VNone VNone
                                   VNone (VStr "2026-05-01")) (invoices g)) /\
    groups_keyed (VStr "unknown") cs = 1%nat.
Proof.
  eexists. split; [reflexivity|].
  apply (C6_unknown_client sample_now
           [sample_no_client; sample_invoice; sample_no_client_id] _
           sample_no_client_id).
  - reflexivity.
  - simpl. auto.
  - reflexivity.
  - reflexivity.
Defined.

(** C7: the name, email and phone of a group are those of the invoice
    it is created for; an invoice of a client that has a group is put
    behind the invoices of the group and the three fields stay as they
    are, whatever the invoice has for them.  The other groups are not
    touched. *)
Theorem C7_metadata_set_once (now : datetime) (cs : clients) (inv : value)
        (k n : value) (e : string) (p : value) (info : invoice_info) :
  client_fields inv = Ok (k, n, e, p) ->
  classify now inv = Ok (Some info) ->
  hashable k = true ->
  exists cs',
    loop_body now cs inv = Ok cs' /\
    find_group k cs' =
    Some (match find_group k cs with
          | None => mk_group n e p [info]
          | Some g => mk_group (client_name g) (client_email g)
                               (client_phone g) (invoices g ++ [info])%list
          end) /\
    forall k', key_eqb k k' = false -> find_group k' cs' = find_group k' cs.
Proof.
  intros Hc Hd Hk. exists (upsert k n e p info cs).
  split; [exact (loop_body_kept now cs inv k n e p info Hc Hd Hk)|].
  split.
  - rewrite (find_group_upsert_same k n e p info k cs (key_eqb_refl k Hk)).
    destruct (find_group k cs); reflexivity.
  - intros k' E. exact (find_group_upsert_other k n e p info k' cs E).
Qed.

Lemma C7_metadata_set_once_witness :
  exists cs',
    loop_body sample_now
      [(VStr "c1", mk_group (VStr "Acme") "" (VStr "") [sample_info])]
      sample_later_invoice = Ok cs' /\
    find_group (VStr "c1") cs' =
    Some (mk_group (VStr "Acme") "" (VStr "")
                   [sample_info; sample_later_info]).
Proof.
  destruct (C7_metadata_set_once sample_now
              [(VStr "c1", mk_group (VStr "Acme") "" (VStr "") [sample_info])]
              sample_later_invoice (VStr "c1")
              (VStr "Acme Ltd") "a@x.io" (VStr "555") sample_later_info
              eq_refl eq_refl eq_refl) as (cs' & L & F & _).
  exists cs'. split; [exact L|exact F].
Defined.

Lemma existsb_key_eq (a k : value) (l : list value) :
  key_eqb a k = true ->
  existsb (fun x => key_eqb x a) l = existsb (fun x => key_eqb x k) l.
Proof.
  intros E. induction l as [|x l IH]; simpl; [reflexivity|].
  rewrite (key_eqb_trans a k x E), IH. reflexivity.
Qed.

Lemma existsb_first_seen (k : value) (ks : list value) :
  forall acc,
    existsb (fun a => key_eqb a k) (fold_left add_key ks acc) =
    existsb (fun a => key_eqb a k) acc || existsb (fun a => key_eqb a k) ks.
Proof.
  induction ks as [|a ks IH]; intros acc; simpl.
  - now rewrite orb_false_r.
  - rewrite IH, orb_assoc. f_equal. unfold add_key.
    destruct (existsb (fun k' => key_eqb k' a) acc) eqn:E.
    + destruct (key_eqb a k) eqn:Ea; [|now rewrite orb_false_r].
      rewrite (existsb_key_eq a k acc Ea) in E. rewrite E. reflexivity.
    + rewrite existsb_app. simpl. now rewrite orb_false_r.
Qed.

(** Over the whole run: the group of a client has the name, email and
    phone of the first invoice of the client that is kept, which is
    the first in its list, whatever the later ones have. *)
Corollary metadata_of_first_kept_invoice
          (now : datetime) (l1 l2 : list value) (inv : value) (cs : clients)
          (k n : value) (e : string) (p : value) (info : invoice_info) :
  aggregate now (l1 ++ inv :: l2) = Ok cs ->
  existsb (fun a => key_eqb a k) (retained_keys now l1) = false ->
  client_fields inv = Ok (k, n, e, p) ->
  classify now inv = Ok (Some info) ->
  exists g l,
    find_group k cs = Some g /\
    client_name g = n /\ client_email g = e /\ client_phone g = p /\
    invoices g = info :: l.
Proof.
  unfold aggregate. intros H Hnew Hc Hd.
  rewrite for_invoices_app in H.
  destruct (for_invoices now l1 []) as [cs1|x] eqn:R1; simpl in H;
    [|discriminate].
  destruct (loop_body now cs1 inv) as [cs2|x] eqn:L; simpl in H;
    [|discriminate].
  apply loop_body_cases in L.
  destruct L as (k1 & n1 & e1 & p1 & Hc1 & [[Hd1 _]|(info1 & Hd1 & Hk & ->)]);
    [rewrite Hd in Hd1; discriminate|].
  rewrite Hc in Hc1. injection Hc1 as <- <- <- <-.
  rewrite Hd in Hd1. injection Hd1 as <-.
  assert (N : find_group k cs1 = None).
  { apply find_group_none_keys.
    rewrite (for_invoices_keys now l1 [] cs1 R1), existsb_first_seen.
    simpl. exact Hnew. }
  pose proof (find_group_upsert_same k n e p info k cs1 (key_eqb_refl k Hk))
    as F.
  rewrite N in F.
  destruct (for_invoices_frozen now l2 _ cs H k _ F)
    as (g & Hg & Hn & He & Hp & l & Hl).
  exists g, l. simpl in *. auto.
Qed.

(* ================================================================== *)
(** ** Order of the rows *)

Lemma retained_key_client_key (now : datetime) (inv : value) (k : value) :
  retained_key now inv = Some k -> client_key inv = Some k.
Proof.
  unfold retained_key, client_key.
  destruct (client_fields inv) as [[[[k' n] e] p]|x]; [|discriminate].
  destruct (classify now inv) as [[info|]|x]; congruence.
Qed.

Lemma retained_keys_all_kept (now : datetime) (invs : list value) :
  (forall inv, In inv invs -> retained_key now inv <> None) ->
  retained_keys now invs = encountered_keys invs.
Proof.
  induction invs as [|inv invs IH]; intros H; simpl; [reflexivity|].
  destruct (retained_key now inv) as [k|] eqn:R.
  - rewrite (retained_key_client_key now inv k R). f_equal.
    apply IH. intros i Hi. apply H. now right.
  - exfalso. apply (H inv); [now left|exact R].
Qed.

Lemma list_max_perm (l1 l2 : list nat) :
  Permutation l1 l2 -> list_max l1 = list_max l2.
Proof.
  induction 1 as [|x l l' _ IH|x y l|l l' l'' _ IH1 _ IH2].
  - reflexivity.
  - change (Nat.max x (list_max l) = Nat.max x (list_max l')).
    rewrite IH. reflexivity.
  - change (Nat.max y (Nat.max x (list_max l)) =
            Nat.max x (Nat.max y (list_max l))).
    lia.
  - congruence.
Qed.

(** The header does not depend on the order of the groups. *)
Lemma headers_perm (cs cs' : clients) :
  Permutation cs cs' -> headers cs' = headers cs.
Proof.
  intros P. unfold headers. do 2 f_equal. unfold max_invoices.
  destruct cs as [|c cs].
  - apply Permutation_nil in P. subst cs'. reflexivity.
  - destruct cs' as [|c' cs'].
    + apply Permutation_sym, Permutation_nil in P. discriminate P.
    + symmetry. apply list_max_perm. apply Permutation_map. exact P.
Qed.

(** C8 as it is worded, the rows in the order in which the clients
    are first met in the input, does not hold: a client whose first
    invoice is skipped has no group yet, and takes its place after
    the clients that have an invoice kept before it has one.  Here
    client [a] is met first and its row comes second. *)
Lemma C8_counterexample :
  ~ (forall (now : datetime) (invs : list value) (cs : clients),
       aggregate now invs = Ok cs ->
       map (hd VNone) (snd (flatten cs)) =
       filter (has_group cs) (first_seen (encountered_keys invs))).
Proof.
  intros H.
  specialize (H sample_now sample_skipped_first _ eq_refl).
  vm_compute in H. discriminate H.
Qed.

(** C8, amended: the rows come in the order of the groups, which is
    the order in which the clients first have an invoice that is
    kept, and the order in which they are first met when no invoice
    is skipped.  The table is computed from the ordered groups and
    nothing else: two runs, whatever their times and inputs, that
    come to the same groups give the same table; and with the groups
    in another order the header is the same and the rows are the same
    rows in that other order. *)
Theorem C8_rows_in_insertion_order (now : datetime) (invs : list value)
        (cs : clients) :
  aggregate now invs = Ok cs ->
  get_grouped_invoices now invs = Ok (flatten cs) /\
  map (hd VNone) (snd (flatten cs)) = map fst cs /\
  map fst cs = first_seen (retained_keys now invs) /\
  ((forall inv, In inv invs -> retained_key now inv <> None) ->
   map fst cs = first_seen (encountered_keys invs)) /\
  (forall now' invs',
      aggregate now' invs' = Ok cs ->
      get_grouped_invoices now' invs' = get_grouped_invoices now invs) /\
  (forall cs',
      Permutation cs cs' ->
      fst (flatten cs') = fst (flatten cs) /\
      snd (flatten cs') = map (row_of (length (fst (flatten cs)))) cs' /\
      Permutation (snd (flatten cs)) (snd (flatten cs'))).
Proof.
  intros H.
  pose proof (for_invoices_keys now invs [] cs H) as K.
  split; [|split; [|split; [|split; [|split]]]].
  - unfold get_grouped_invoices. rewrite H. reflexivity.
  - cbn [flatten snd]. unfold rows. rewrite map_map. apply map_ext.
    intros c. reflexivity.
  - exact K.
  - intros A. rewrite <- (retained_keys_all_kept now invs A). exact K.
  - intros now' invs' H'. unfold get_grouped_invoices. rewrite H, H'.
    reflexivity.
  - intros cs' P. cbn [flatten fst snd].
    pose proof (headers_perm cs cs' P) as E.
    split; [exact E|]. split.
    + unfold rows. rewrite E. reflexivity.
    + unfold rows. rewrite E. apply Permutation_map. exact P.
Qed.

Lemma C8_rows_in_insertion_order_witness :
  exists cs,
    aggregate sample_now sample_skipped_first = Ok cs /\
    map (hd VNone) (snd (flatten cs)) = [VStr "b"; VStr "a"] /\
    first_seen (retained_keys sample_now sample_skipped_first)
    = [VStr "b"; VStr "a"] /\
    first_seen (encountered_keys sample_skipped_first)
    = [VStr "a"; VStr "b"].
Proof.
  eexists. split; [reflexivity|].
  destruct (C8_rows_in_insertion_order sample_now sample_skipped_first
              _ eq_refl) as (_ & R & K & _).
  split; [rewrite R; reflexivity|]. split; reflexivity.
Defined.

(* ================================================================== *)
(** ** Scenarios *)

(** C9: the invoice of client c1 ("Acme"), id i1, amount 100, due on
    2000-01-01, in a run at 2025-01-01, gives the one group [c1] and
    the one row c1, Acme, "", "", past_due, i1, 100, None, None, None,
    2000-01-01. *)
Theorem C9_scenario :
  aggregate sample_now [sample_invoice] =
  Ok [(VStr "c1",
       mk_group (VStr "Acme") "" (VStr "")
         [mk_invoice_info "past_due" (VStr "i1") (VInt 100)
                          VNone VNone VNone (VStr "2000-01-01")])] /\
  get_grouped_invoices sample_now [sample_invoice] =
  Ok (["client_id"; "client_name"; "client_email"; "client_phone";
       "invoice1_status"; "invoice1_id"; "invoice1_amount";
       "invoice1_description"; "invoice1_download_link";
       "invoice1_create_date"; "invoice1_due_date"],
      [[VStr "c1"; VStr "Acme"; VStr ""; VStr "";
        VStr "past_due"; VStr "i1"; VInt 100; VNone; VNone; VNone;
        VStr "2000-01-01"]]).
Proof. split; vm_compute; reflexivity. Qed.

(** A client with one invoice and a client with two: two slots in the
    header, and seven empty cells at the end of the first row. *)
Example two_clients_table :
  let inv c i due :=
    VDict [("client", VDict [("id", VStr c)]); ("id", VStr i);
           ("dueDate", VStr due)] in
  get_grouped_invoices sample_now
    [inv "c1" "a" "2024-01-01"; inv "c2" "b" "2024-02-02";
     inv "c2" "c" "2025-03-03"] =
  Ok (["client_id"; "client_name"; "client_email"; "client_phone";
       "invoice1_status"; "invoice1_id"; "invoice1_amount";
       "invoice1_description"; "invoice1_download_link";
       "invoice1_create_date"; "invoice1_due_date";
       "invoice2_status"; "invoice2_id"; "invoice2_amount";
       "invoice2_description"; "invoice2_download_link";
       "invoice2_create_date"; "invoice2_due_date"],
      [[VStr "c1"; VStr "Unknown"; VStr ""; VStr "";
        VStr "past_due"; VStr "a"; VNone; VNone; VNone; VNone;
        VStr "2024-01-01";
        VStr ""; VStr ""; VStr ""; VStr ""; VStr ""; VStr ""; VStr ""];
       [VStr "c2"; VStr "Unknown"; VStr ""; VStr "";
        VStr "past_due"; VStr "b"; VNone; VNone; VNone; VNone;
        VStr "2024-02-02";
        VStr "to_be_paid"; VStr "c"; VNone; VNone; VNone; VNone;
        VStr "2025-03-03"]]).
Proof. vm_compute. reflexivity. Qed.

(* ================================================================== *)
(** ** Falsy due dates *)



(** The empty [dueDate] of the invoice gives way to the one of its
    first item, and the invoice is kept with that. *)
Example empty_due_date_uses_item :
  aggregate sample_now
    [VDict [("dueDate", VStr "");
            ("items", VList [VDict [("dueDate", VStr "2030-06-01T00:00:00")]])]]
  = Ok [(VStr "unknown",
         mk_group (VStr "Unknown") "" (VStr "")
           [mk_invoice_info "to_be_paid" VNone VNone VNone VNone VNone
                            (VStr "2030-06-01T00:00:00")])].
Proof. vm_compute. reflexivity. Qed.

(* ================================================================== *)
(** ** More on a turn of the loop *)

(** A turn of the loop, by the cases of its three steps. *)
Lemma loop_body_eq (now : datetime) (cs : clients) (inv : value) :
  loop_body now cs inv =
  match client_fields inv with
  | Raise x => Raise x
  | Ok (k, n, e, p) =>
      match classify now inv with
      | Raise x => Raise x
      | Ok None => Ok cs
      | Ok (Some info) =>
          if hashable k then Ok (upsert k n e p info cs) else Raise TypeError
      end
  end.
Proof.
  unfold loop_body.
  destruct (client_fields inv) as [[[[k n] e] p]|x]; simpl; [|reflexivity].
  destruct (classify now inv) as [[info|]|x]; simpl; try reflexivity.
  destruct (hashable k) eqn:Hk.
  - apply insert_is_upsert. exact Hk.
  - unfold contains. rewrite Hk. reflexivity.
Qed.

(** Whether a turn raises, and what, does not depend on [clients]. *)
Lemma loop_body_raise_indep (now : datetime) (cs cs' : clients) (inv : value)
      (x : exn) :
  loop_body now cs inv = Raise x -> loop_body now cs' inv = Raise x.
Proof.
  rewrite !loop_body_eq.
  destruct (client_fields inv) as [[[[k n] e] p]|y]; [|auto].
  destruct (classify now inv) as [[info|]|y]; try discriminate; auto.
  destruct (hashable k); [discriminate|auto].
Qed.

Lemma loop_body_ok_indep (now : datetime) (cs cs' cs1 : clients) (inv : value) :
  loop_body now cs inv = Ok cs1 -> exists cs2, loop_body now cs' inv = Ok cs2.
Proof.
  rewrite !loop_body_eq.
  destruct (client_fields inv) as [[[[k n] e] p]|y]; [|discriminate].
  destruct (classify now inv) as [[info|]|y]; try discriminate.
  - destruct (hashable k); [|discriminate]. intros _. eexists. reflexivity.
  - intros _. eexists. reflexivity.
Qed.

(** What [classify] keeps comes from a due date that is a string
    [strptime] accepts, and has the status of that date. *)
Lemma classify_some (now : datetime) (inv : value) (info : invoice_info) :
  classify now inv = Ok (Some info) ->
  exists s d,
    due_date_str inv = Ok (VStr s) /\
    strptime_str (substring 0 10 s) = Ok d /\
    due_date info = VStr s /\
    status info = (if datetime_lt d now then "past_due" else "to_be_paid").
Proof.
  unfold classify.
  destruct (due_date_str inv) as [v|x] eqn:Hv; simpl; [|discriminate].
  destruct (truthy v); simpl; [|discriminate].
  unfold parse_due_date.
  destruct v as [|b|n|s|xs|kv]; simpl; try discriminate.
  destruct (strptime_str (substring 0 10 s)) as [d|[| | | | |]] eqn:Hp;
    simpl; try discriminate.
  destruct (get inv "id" VNone); simpl; [|discriminate].
  destruct (get inv "amount" VNone); simpl; [|discriminate].
  destruct (get inv "description" VNone); simpl; [|discriminate].
  destruct (get inv "url" (VDict [])) as [u|]; simpl; [|discriminate].
  destruct (get u "he" VNone); simpl; [|discriminate].
  destruct (get inv "documentDate" VNone); simpl; [|discriminate].
  intros H. injection H as <-. exists s, d. simpl. auto.
Qed.

(** A property of the groups that the new group has and that adding
    an invoice keeps is kept by [upsert]. *)
Lemma upsert_groups (Q : group -> Prop) (k n : value) (e : string)
      (p : value) (info : invoice_info) (cs : clients) :
  Q (mk_group n e p [info]) ->
  (forall g, Q g ->
             Q (mk_group (client_name g) (client_email g) (client_phone g)
                         (invoices g ++ [info])%list)) ->
  Forall (fun c => Q (snd c)) cs ->
  Forall (fun c => Q (snd c)) (upsert k n e p info cs).
Proof.
  intros Hnew Happ.
  induction cs as [|[k0 g] rest IH]; simpl; intros H.
  - constructor; [exact Hnew|constructor].
  - inversion H as [|? ? Hg Hr]; subst.
    destruct (key_eqb k0 k); constructor; simpl; auto.
Qed.

(* ================================================================== *)
(** ** What the groups hold *)

Lemma for_invoices_invoices_of (now : datetime) :
  forall invs cs cs',
    for_invoices now invs cs = Ok cs' ->
    forall k, invoices_of k cs' =
              (invoices_of k cs ++ kept_infos now k invs)%list.
Proof.
  apply (for_invoices_run_ind now
           (fun invs cs cs' =>
              forall k, invoices_of k cs' =
                        (invoices_of k cs ++ kept_infos now k invs)%list)).
  - intros cs k. simpl. now rewrite app_nil_r.
  - intros inv invs cs cs' k0 n e p Hc Hd _ IH k. simpl.
    unfold kept. rewrite Hc, Hd. apply IH.
  - intros inv invs cs cs' k0 n e p info Hc Hd Hk _ IH k. simpl.
    unfold kept. rewrite Hc, Hd. rewrite IH. unfold invoices_of.
    destruct (key_eqb k0 k) eqn:E.
    + rewrite (find_group_upsert_same k0 n e p info k cs E).
      destruct (find_group k cs); simpl; [rewrite <- app_assoc|];
        reflexivity.
    + rewrite (find_group_upsert_other k0 n e p info k cs E). reflexivity.
Qed.

Lemma for_invoices_nonempty_groups (now : datetime) :
  forall invs cs cs',
    for_invoices now invs cs = Ok cs' ->
    Forall (fun c => invoices (snd c) <> []) cs ->
    Forall (fun c => invoices (snd c) <> []) cs'.
Proof.
  apply (for_invoices_run_ind now
           (fun _ cs cs' =>
              Forall (fun c => invoices (snd c) <> []) cs ->
              Forall (fun c => invoices (snd c) <> []) cs')).
  - auto.
  - auto.
  - intros inv invs cs cs' k n e p info _ _ _ _ IH H. apply IH.
    apply (upsert_groups (fun g => invoices g <> [])); simpl; auto.
    + discriminate.
    + intros g _ E. apply app_eq_nil in E. destruct E. discriminate.
Qed.

Lemma find_group_in (k : value) (cs : clients) (g : group) :
  find_group k cs = Some g -> exists k', In (k', g) cs.
Proof.
  induction cs as [|[k0 g0] rest IH]; simpl; [discriminate|].
  destruct (key_eqb k0 k).
  - intros H. injection H as ->. exists k0. now left.
  - intros H. destruct (IH H) as (k' & Hin). exists k'. now right.
Qed.

(** X1: the group of a client holds what the loop keeps of the invoices of
    that client, all of them and in the order of the input, and there
    is a group for a key when an invoice with that key is kept and
    only then. *)
Theorem groups_hold_kept_in_order (now : datetime) (invs : list value)
        (cs : clients) (k : value) :
  aggregate now invs = Ok cs ->
  invoices_of k cs = kept_infos now k invs /\
  (find_group k cs = None <-> kept_infos now k invs = []).
Proof.
  unfold aggregate. intros H.
  pose proof (for_invoices_invoices_of now invs [] cs H k) as E.
  simpl in E. split; [exact E|]. rewrite <- E. unfold invoices_of.
  destruct (find_group k cs) as [g|] eqn:F; [|tauto].
  split; [discriminate|]. intros N. exfalso.
  destruct (find_group_in k cs g F) as (k' & Hin).
  pose proof (for_invoices_nonempty_groups now invs [] cs H (Forall_nil _))
    as NE.
  rewrite Forall_forall in NE. exact (NE _ Hin N).
Qed.

Lemma groups_hold_kept_in_order_witness :
  exists cs,
    aggregate sample_now sample_run = Ok cs /\
    map due_date (invoices_of (VStr "b") cs)
    = [VStr "2024-01-01"; VStr "2026-02-02"] /\
    find_group (VStr "z") cs = None.
Proof.
  eexists. split; [reflexivity|].
  destruct (groups_hold_kept_in_order sample_now sample_run _ (VStr "b")
              eq_refl) as [E _].
  destruct (groups_hold_kept_in_order sample_now sample_run _ (VStr "z")
              eq_refl) as [_ N].
  split; [rewrite E; reflexivity|apply N; reflexivity].
Defined.

Lemma total_invoices_upsert (k n : value) (e : string) (p : value)
      (info : invoice_info) (cs : clients) :
  total_invoices (upsert k n e p info cs) = S (total_invoices cs).
Proof.
  unfold total_invoices.
  induction cs as [|[k0 g] rest IH]; simpl; [reflexivity|].
  destruct (key_eqb k0 k); simpl.
  - rewrite length_app. simpl. lia.
  - rewrite IH. lia.
Qed.

Lemma for_invoices_total (now : datetime) :
  forall invs cs cs',
    for_invoices now invs cs = Ok cs' ->
    total_invoices cs' =
    (total_invoices cs + length (retained_keys now invs))%nat.
Proof.
  apply for_invoices_run_ind.
  - intros cs. simpl. lia.
  - intros inv invs cs cs' k n e p Hc Hd _ IH. simpl.
    unfold retained_key. rewrite Hc, Hd. exact IH.
  - intros inv invs cs cs' k n e p info Hc Hd _ _ IH. simpl.
    unfold retained_key. rewrite Hc, Hd. simpl.
    rewrite IH, total_invoices_upsert. lia.
Qed.

Lemma retained_keys_length (now : datetime) (invs : list value) :
  (length (retained_keys now invs) <= length invs)%nat.
Proof.
  induction invs as [|inv invs IH]; simpl; [lia|].
  destruct (retained_key now inv); simpl; lia.
Qed.

(** X2: every invoice that is kept is in the groups once: the groups hold
    as many invoices as the loop keeps, which are at most those of the
    input. *)
Theorem kept_invoices_counted_once (now : datetime) (invs : list value)
        (cs : clients) :
  aggregate now invs = Ok cs ->
  total_invoices cs = length (retained_keys now invs) /\
  (total_invoices cs <= length invs)%nat.
Proof.
  unfold aggregate. intros H.
  pose proof (for_invoices_total now invs [] cs H) as T. simpl in T.
  pose proof (retained_keys_length now invs). lia.
Qed.

Lemma kept_invoices_counted_once_witness :
  exists cs,
    aggregate sample_now sample_run = Ok cs /\
    total_invoices cs = 4%nat.
Proof.
  eexists. split; [reflexivity|].
  destruct (kept_invoices_counted_once sample_now sample_run _ eq_refl)
    as [T _].
  rewrite T. reflexivity.
Defined.

Lemma row_of_length (cs : clients) (c : value * group) :
  In c cs ->
  length (row_of (length (headers cs)) c) = (4 + 7 * max_invoices cs)%nat.
Proof.
  intros Hin. pose proof (max_invoices_bound cs c Hin) as B.
  unfold row_of.
  rewrite !length_app, repeat_length, invoice_cells_length, headers_length.
  simpl length. lia.
Qed.

(** X3: no group is empty, so a table with a row has an invoice slot: its
    rows have eleven cells or more. *)
Theorem no_empty_group (now : datetime) (invs : list value) (cs : clients) :
  aggregate now invs = Ok cs ->
  Forall (fun c => (1 <= length (invoices (snd c)))%nat) cs /\
  Forall (fun row => (11 <= length row)%nat) (rows cs).
Proof.
  unfold aggregate. intros H.
  pose proof (for_invoices_nonempty_groups now invs [] cs H (Forall_nil _))
    as NE.
  rewrite Forall_forall in NE.
  assert (L : forall c, In c cs -> (1 <= length (invoices (snd c)))%nat).
  { intros c Hin. specialize (NE c Hin).
    destruct (invoices (snd c)); [contradiction|simpl; lia]. }
  split; apply Forall_forall.
  - exact L.
  - intros row Hin. unfold rows in Hin. apply in_map_iff in Hin.
    destruct Hin as (c & <- & Hc). rewrite (row_of_length cs c Hc).
    pose proof (max_invoices_bound cs c Hc). specialize (L c Hc). lia.
Qed.

Lemma no_empty_group_witness :
  exists cs,
    aggregate sample_now sample_run = Ok cs /\
    Forall (fun c => (1 <= length (invoices (snd c)))%nat) cs /\
    Forall (fun row => (11 <= length row)%nat) (rows cs).
Proof.
  eexists. split; [reflexivity|].
  exact (no_empty_group sample_now sample_run _ eq_refl).
Defined.

(* ================================================================== *)
(** ** The keys of the groups *)

Lemma add_key_pairs (ks : list value) (k : value) :
  ForallOrdPairs (fun a b => key_eqb a b = false) ks ->
  ForallOrdPairs (fun a b => key_eqb a b = false) (add_key ks k).
Proof.
  unfold add_key.
  destruct (existsb (fun k' => key_eqb k' k) ks) eqn:E; [auto|].
  induction ks as [|a ks IH]; simpl; intros H.
  - constructor; constructor.
  - simpl in E. apply orb_false_elim in E. destruct E as [Ea Eks].
    inversion H as [|? ? Ha Hks]; subst.
    constructor.
    + apply Forall_app. split; [exact Ha|]. constructor; [exact Ea|constructor].
    + exact (IH Eks Hks).
Qed.

Lemma add_key_hashable (ks : list value) (k : value) :
  hashable k = true ->
  Forall (fun a => hashable a = true) ks ->
  Forall (fun a => hashable a = true) (add_key ks k).
Proof.
  intros Hk H. unfold add_key.
  destruct (existsb (fun k' => key_eqb k' k) ks); [exact H|].
  apply Forall_app. split; [exact H|]. constructor; [exact Hk|constructor].
Qed.

Lemma for_invoices_key_invariant (now : datetime) :
  forall invs cs cs',
    for_invoices now invs cs = Ok cs' ->
    ForallOrdPairs (fun a b => key_eqb a b = false) (map fst cs) /\
    Forall (fun a => hashable a = true) (map fst cs) ->
    ForallOrdPairs (fun a b => key_eqb a b = false) (map fst cs') /\
    Forall (fun a => hashable a = true) (map fst cs').
Proof.
  apply (for_invoices_run_ind now
           (fun _ cs cs' =>
              ForallOrdPairs (fun a b => key_eqb a b = false) (map fst cs) /\
              Forall (fun a => hashable a = true) (map fst cs) ->
              ForallOrdPairs (fun a b => key_eqb a b = false) (map fst cs') /\
              Forall (fun a => hashable a = true) (map fst cs'))).
  - auto.
  - auto.
  - intros inv invs cs cs' k n e p info _ _ Hk _ IH [P H]. apply IH.
    rewrite upsert_keys. split.
    + apply add_key_pairs. exact P.
    + apply add_key_hashable; assumption.
Qed.

(** X4: no two groups, so no two rows, have equal client ids, [True] and
    1 counting as equal; and no id is a list or an object, which have
    no hash.  (The ids are values of the model, where a number is an
    int.) *)
Theorem client_ids_distinct (now : datetime) (invs : list value)
        (cs : clients) :
  aggregate now invs = Ok cs ->
  ForallOrdPairs (fun a b => key_eqb a b = false) (map fst cs) /\
  Forall (fun a => hashable a = true) (map fst cs) /\
  map (hd VNone) (snd (flatten cs)) = map fst cs.
Proof.
  unfold aggregate. intros H.
  destruct (for_invoices_key_invariant now invs [] cs H) as [P K].
  { split; constructor. }
  split; [exact P|]. split; [exact K|].
  cbn [flatten snd]. unfold rows. rewrite map_map. apply map_ext.
  reflexivity.
Qed.

Lemma client_ids_distinct_witness :
  exists cs,
    aggregate sample_now
      [sample_invoice; sample_no_client; sample_later_invoice;
       sample_no_client_id] = Ok cs /\
    map fst cs = [VStr "c1"; VStr "unknown"] /\
    ForallOrdPairs (fun a b => key_eqb a b = false) (map fst cs).
Proof.
  eexists. split; [reflexivity|]. split; [reflexivity|].
  exact (proj1 (client_ids_distinct sample_now
                  [sample_invoice; sample_no_client; sample_later_invoice;
                   sample_no_client_id] _ eq_refl)).
Defined.

(* ================================================================== *)
(** ** The invoices of the groups *)

Lemma for_invoices_classified (now : datetime) :
  forall invs cs cs',
    for_invoices now invs cs = Ok cs' ->
    Forall (fun c => Forall (classified_at now) (invoices (snd c))) cs ->
    Forall (fun c => Forall (classified_at now) (invoices (snd c))) cs'.
Proof.
  apply (for_invoices_run_ind now
           (fun _ cs cs' =>
              Forall (fun c => Forall (classified_at now) (invoices (snd c)))
                     cs ->
              Forall (fun c => Forall (classified_at now) (invoices (snd c)))
                     cs')).
  - auto.
  - auto.
  - intros inv invs cs cs' k n e p info _ Hd _ _ IH H. apply IH.
    assert (C : classified_at now info).
    { destruct (classify_some now inv info Hd) as (s & d & _ & Hp & Hs & Ht).
      exists s, d. auto. }
    apply (upsert_groups (fun g => Forall (classified_at now) (invoices g)));
      simpl; auto.
    intros g Hg. apply Forall_app. auto.
Qed.

(** X5: every invoice in a group has for [due_date] a string whose first
    ten characters [strptime] accepts, and the status that the date
    read from them has at the time of the run: past_due before [now]
    and to_be_paid otherwise. *)
Theorem stored_invoices_classified (now : datetime) (invs : list value)
        (cs : clients) :
  aggregate now invs = Ok cs ->
  Forall (fun c => Forall (classified_at now) (invoices (snd c))) cs.
Proof.
  unfold aggregate. intros H.
  exact (for_invoices_classified now invs [] cs H (Forall_nil _)).
Qed.

Lemma stored_invoices_classified_witness :
  exists cs,
    aggregate sample_now sample_run = Ok cs /\
    Forall (fun c => Forall (classified_at sample_now) (invoices (snd c))) cs.
Proof.
  eexists. split; [reflexivity|].
  exact (stored_invoices_classified sample_now sample_run _ eq_refl).
Defined.

(* ================================================================== *)
(** ** Exceptions *)

Lemma for_invoices_raise (now : datetime) (e : exn) :
  forall invs cs,
    for_invoices now invs cs = Raise e <->
    exists l1 inv l2,
      invs = (l1 ++ inv :: l2)%list /\
      (forall i, In i l1 -> exists c, loop_body now [] i = Ok c) /\
      loop_body now [] inv = Raise e.
Proof.
  induction invs as [|inv invs IH]; intros cs; simpl.
  - split; [discriminate|].
    intros (l1 & i & l2 & E & _). destruct l1; discriminate.
  - destruct (loop_body now cs inv) as [cs1|x] eqn:L; simpl.
    + rewrite IH. split.
      * intros (l1 & i & l2 & -> & Hok & Hr).
        exists (inv :: l1), i, l2. split; [reflexivity|]. split; [|exact Hr].
        intros j [<-|Hj]; [|exact (Hok j Hj)].
        exact (loop_body_ok_indep now cs [] cs1 inv L).
      * intros (l1 & i & l2 & E & Hok & Hr).
        destruct l1 as [|a l1]; simpl in E; injection E as <- ->.
        -- rewrite (loop_body_raise_indep now [] cs inv e Hr) in L.
           discriminate.
        -- exists l1, i, l2. split; [reflexivity|]. split; [|exact Hr].
           intros j Hj. apply Hok. now right.
    + split.
      * intros H. injection H as ->.
        exists [], inv, invs. split; [reflexivity|]. split; [intros i []|].
        exact (loop_body_raise_indep now cs [] inv e L).
      * intros (l1 & i & l2 & E & Hok & Hr).
        destruct l1 as [|a l1]; simpl in E; injection E as <- ->.
        -- rewrite (loop_body_raise_indep now [] cs inv e Hr) in L.
           congruence.
        -- destruct (Hok inv (or_introl eq_refl)) as (c & Hc).
           destruct (loop_body_ok_indep now [] cs c inv Hc) as (c' & Hc').
           rewrite Hc' in L. discriminate.
Qed.

(** X6: the run raises an exception when a turn of the loop does, and it
    is the exception of the first invoice of the input that raises
    one taken by itself: the invoices before it are done without one,
    and what comes after it plays no part.  No table comes of it. *)
Theorem run_fails_at_first_bad_invoice
        (now : datetime) (invs : list value) (e : exn) :
  get_grouped_invoices now invs = Raise e <->
  exists l1 inv l2,
    invs = (l1 ++ inv :: l2)%list /\
    (forall i, In i l1 -> exists c, loop_body now [] i = Ok c) /\
    loop_body now [] inv = Raise e.
Proof.
  rewrite <- (for_invoices_raise now e invs []).
  unfold get_grouped_invoices, aggregate.
  destruct (for_invoices now invs []); simpl; split; congruence.
Qed.

Lemma get_raises (v : value) (key : string) (dflt : value) (x : exn) :
  get v key dflt = Raise x -> x = AttributeError.
Proof. destruct v; simpl; congruence. Qed.

Lemma join_raises (sep : string) (v : value) (x : exn) :
  join sep v = Raise x -> x = TypeError.
Proof.
  destruct v as [| | | |xs|]; simpl; try congruence.
  destruct (all_str xs); congruence.
Qed.

Lemma client_fields_raises (inv : value) (x : exn) :
  client_fields inv = Raise x -> x = AttributeError \/ x = TypeError.
Proof.
  unfold client_fields.
  destruct (get inv "client" (VDict [])) as [c|y] eqn:G; simpl;
    [|intros H; injection H as <-; left; exact (get_raises _ _ _ _ G)].
  destruct (get c "id" (VStr "unknown")) as [i|y] eqn:Gi; simpl;
    [|intros H; injection H as <-; left; exact (get_raises _ _ _ _ Gi)].
  destruct (get c "name" (VStr "Unknown")) as [n|y] eqn:Gn; simpl;
    [|intros H; injection H as <-; left; exact (get_raises _ _ _ _ Gn)].
  destruct (get c "emails" (VList [])) as [m|y] eqn:Gm; simpl;
    [|intros H; injection H as <-; left; exact (get_raises _ _ _ _ Gm)].
  destruct (join ", " m) as [j|y] eqn:J; simpl;
    [|intros H; injection H as <-; right; exact (join_raises _ _ _ J)].
  destruct (get c "phone" (VStr "")) as [ph|y] eqn:Gp; simpl;
    [|intros H; injection H as <-; left; exact (get_raises _ _ _ _ Gp)].
  discriminate.
Qed.

Lemma due_date_str_raises (inv : value) (x : exn) :
  due_date_str inv = Raise x -> x <> ValueError.
Proof.
  unfold due_date_str.
  destruct (get inv "dueDate" VNone) as [t|y] eqn:G; simpl;
    [|intros H; injection H as <-; rewrite (get_raises _ _ _ _ G);
      discriminate].
  destruct (truthy t); [discriminate|].
  destruct (get inv "items" (VList [VDict []])) as [it|y] eqn:Gi; simpl;
    [|intros H; injection H as <-; rewrite (get_raises _ _ _ _ Gi);
      discriminate].
  destruct (item0 it) as [f|y] eqn:I; simpl.
  - intros H. rewrite (get_raises _ _ _ _ H). discriminate.
  - intros H. injection H as <-.
    destruct it as [| | |[|? ?]|[|? ?]|]; simpl in I; congruence.
Qed.

Lemma classify_raises (now : datetime) (inv : value) (x : exn) :
  classify now inv = Raise x -> x <> ValueError.
Proof.
  unfold classify.
  destruct (due_date_str inv) as [v|y] eqn:D; simpl;
    [|intros H; injection H as <-; exact (due_date_str_raises inv y D)].
  destruct (truthy v); simpl; [|discriminate].
  destruct (parse_due_date v) as [[d|]|y] eqn:P; simpl; [| discriminate |].
  - destruct (get inv "id" VNone) as [?|y] eqn:G1; simpl;
      [|intros H; injection H as <-; rewrite (get_raises _ _ _ _ G1);
        discriminate].
    destruct (get inv "amount" VNone) as [?|y] eqn:G2; simpl;
      [|intros H; injection H as <-; rewrite (get_raises _ _ _ _ G2);
        discriminate].
    destruct (get inv "description" VNone) as [?|y] eqn:G3; simpl;
      [|intros H; injection H as <-; rewrite (get_raises _ _ _ _ G3);
        discriminate].
    destruct (get inv "url" (VDict [])) as [u|y] eqn:G4; simpl;
      [|intros H; injection H as <-; rewrite (get_raises _ _ _ _ G4);
        discriminate].
    destruct (get u "he" VNone) as [?|y] eqn:G5; simpl;
      [|intros H; injection H as <-; rewrite (get_raises _ _ _ _ G5);
        discriminate].
    destruct (get inv "documentDate" VNone) as [?|y] eqn:G6; simpl;
      [|intros H; injection H as <-; rewrite (get_raises _ _ _ _ G6);
        discriminate].
    discriminate.
  - intros H. injection H as <-. unfold parse_due_date in P.
    destruct (s10 <- slice10 v;; strptime s10) as [?|[| | | | |]];
      try discriminate P; injection P as <-; discriminate.
Qed.

Lemma loop_body_raises (now : datetime) (cs : clients) (inv : value)
      (x : exn) :
  loop_body now cs inv = Raise x -> x <> ValueError.
Proof.
  rewrite loop_body_eq.
  destruct (client_fields inv) as [[[[k n] e] p]|y] eqn:C.
  - destruct (classify now inv) as [[info|]|y] eqn:D.
    + destruct (hashable k); [discriminate|].
      intros H. injection H as <-. discriminate.
    + discriminate.
    + intros H. injection H as <-. exact (classify_raises now inv y D).
  - intros H. injection H as <-.
    destruct (client_fields_raises inv y C) as [-> | ->]; discriminate.
Qed.

(** X7: under every interpreter the run gives a table or raises an
    AttributeError, a TypeError, an IndexError or a KeyError.  The
    ValueError of a date that does not parse never leaves the loop. *)
Theorem value_error_never_leaves (now : datetime) (invs : list value)
        (slices_hashable : bool) :
  (exists t, get_grouped_invoices now invs = Ok t) \/
  python_result slices_hashable (get_grouped_invoices now invs)
  = Raise AttributeError \/
  python_result slices_hashable (get_grouped_invoices now invs)
  = Raise TypeError \/
  python_result slices_hashable (get_grouped_invoices now invs)
  = Raise IndexError \/
  python_result slices_hashable (get_grouped_invoices now invs)
  = Raise KeyError.
Proof.
  destruct (get_grouped_invoices now invs) as [t|x] eqn:R.
  - left. exists t. reflexivity.
  - right.
    assert (A : for_invoices now invs [] = Raise x).
    { unfold get_grouped_invoices, aggregate in R.
      destruct (for_invoices now invs []); simpl in R; congruence. }
    destruct (proj1 (for_invoices_raise now x invs []) A)
      as (l1 & inv & l2 & _ & _ & L).
    pose proof (loop_body_raises now [] inv x L).
    destruct x, slices_hashable; simpl; auto; contradiction.
Qed.

Lemma run_fails_at_first_bad_invoice_witness :
  get_grouped_invoices sample_now
    [sample_invoice; sample_bad_date; VDict [("client", VNone)];
     VDict [("items", VList [])]]
  = Raise AttributeError.
Proof.
  apply (proj2 (run_fails_at_first_bad_invoice sample_now
                  [sample_invoice; sample_bad_date;
                   VDict [("client", VNone)]; VDict [("items", VList [])]]
                  AttributeError)).
  exists [sample_invoice; sample_bad_date], (VDict [("client", VNone)]),
    [VDict [("items", VList [])]].
  split; [reflexivity|]. split; [|reflexivity].
  intros i [<-|[<-|[]]]; eexists; reflexivity.
Defined.

(** X8: a due date that is truthy and no string is not skipped as one
    that does not parse is: the exception of line 97 is no ValueError,
    is not caught and ends the run.  It is a TypeError for a number,
    [True] and a list; for an object it is the exception of the slice,
    a TypeError up to Python 3.11 and a KeyError from 3.12 on. *)
Theorem non_string_due_date_raises
        (now : datetime) (cs : clients) (inv : value) (rest : list value)
        (cf : value * value * string * value) (v : value) :
  client_fields inv = Ok cf ->
  due_date_str inv = Ok v ->
  truthy v = true ->
  (forall s, v <> VStr s) ->
  classify now inv =
  Raise (match v with VDict _ => DictSliceError | _ => TypeError end) /\
  for_invoices now (inv :: rest) cs =
  Raise (match v with VDict _ => DictSliceError | _ => TypeError end) /\
  (forall slices_hashable,
      python_result slices_hashable (for_invoices now (inv :: rest) cs) =
      Raise (match v with
             | VDict _ => if slices_hashable then KeyError else TypeError
             | _ => TypeError
             end)).
Proof.
  intros Hc Hv Ht Hs.
  assert (C : classify now inv =
              Raise (match v with
                     | VDict _ => DictSliceError | _ => TypeError end)).
  { unfold classify. rewrite Hv. simpl. rewrite Ht. simpl.
    unfold parse_due_date.
    destruct v as [|b|n|s|xs|kv]; simpl; try reflexivity.
    exfalso. exact (Hs s eq_refl). }
  assert (F : for_invoices now (inv :: rest) cs =
              Raise (match v with
                     | VDict _ => DictSliceError | _ => TypeError end)).
  { simpl. rewrite loop_body_eq, Hc, C.
    destruct cf as [[[k n] e] p]. reflexivity. }
  split; [exact C|]. split; [exact F|].
  intros h. rewrite F. destruct v; reflexivity.
Qed.

Lemma non_string_due_date_raises_witness :
  for_invoices sample_now
    [VDict [("dueDate", VInt 20240101)]; sample_invoice] []
  = Raise TypeError /\
  python_result true
    (for_invoices sample_now
       [VDict [("dueDate", VDict [("date", VStr "2024-01-01")])];
        sample_invoice] [])
  = Raise KeyError /\
  python_result false
    (for_invoices sample_now
       [VDict [("dueDate", VDict [("date", VStr "2024-01-01")])];
        sample_invoice] [])
  = Raise TypeError.
Proof.
  split; [|split].
  - apply (non_string_due_date_raises sample_now []
             (VDict [("dueDate", VInt 20240101)]) [sample_invoice]
             (VStr "unknown", VStr "Unknown", "", VStr "") (VInt 20240101)).
    + reflexivity.
    + reflexivity.
    + reflexivity.
    + intros s. discriminate.
  - apply (non_string_due_date_raises sample_now []
             (VDict [("dueDate", VDict [("date", VStr "2024-01-01")])])
             [sample_invoice]
             (VStr "unknown", VStr "Unknown", "", VStr "")
             (VDict [("date", VStr "2024-01-01")])).
    + reflexivity.
    + reflexivity.
    + reflexivity.
    + intros s. discriminate.
  - apply (non_string_due_date_raises sample_now []
             (VDict [("dueDate", VDict [("date", VStr "2024-01-01")])])
             [sample_invoice]
             (VStr "unknown", VStr "Unknown", "", VStr "")
             (VDict [("date", VStr "2024-01-01")])).
    + reflexivity.
    + reflexivity.
    + reflexivity.
    + intros s. discriminate.
Defined.

(* ================================================================== *)
(** ** The time of the run *)

Lemma classify_blank (now1 now2 : datetime) (inv : value) :
  map_result (option_map blank_status) (classify now1 inv) =
  map_result (option_map blank_status) (classify now2 inv).
Proof.
  unfold classify.
  destruct (due_date_str inv) as [v|x]; simpl; [|reflexivity].
  destruct (truthy v); simpl; [|reflexivity].
  destruct (parse_due_date v) as [[d|]|x]; simpl; try reflexivity.
  destruct (get inv "id" VNone); simpl; [|reflexivity].
  destruct (get inv "amount" VNone); simpl; [|reflexivity].
  destruct (get inv "description" VNone); simpl; [|reflexivity].
  destruct (get inv "url" (VDict [])) as [u|]; simpl; [|reflexivity].
  destruct (get u "he" VNone); simpl; [|reflexivity].
  destruct (get inv "documentDate" VNone); simpl; reflexivity.
Qed.

Lemma blank_upsert (k n : value) (e : string) (p : value)
      (info : invoice_info) (cs : clients) :
  blank (upsert k n e p info cs) =
  upsert k n e p (blank_status info) (blank cs).
Proof.
  induction cs as [|[k0 g] rest IH]; simpl; [reflexivity|].
  destruct (key_eqb k0 k); simpl.
  - rewrite map_app. reflexivity.
  - fold (blank (upsert k n e p info rest)). fold (blank rest).
    rewrite IH. reflexivity.
Qed.

Lemma for_invoices_blank (now1 now2 : datetime) (invs : list value) :
  forall cs1 cs2,
    blank cs1 = blank cs2 ->
    map_result blank (for_invoices now1 invs cs1) =
    map_result blank (for_invoices now2 invs cs2).
Proof.
  induction invs as [|inv invs IH]; intros cs1 cs2 B; simpl.
  - rewrite B. reflexivity.
  - rewrite !loop_body_eq.
    destruct (client_fields inv) as [[[[k n] e] p]|x]; simpl; [|reflexivity].
    pose proof (classify_blank now1 now2 inv) as C.
    destruct (classify now1 inv) as [[i1|]|x1];
      destruct (classify now2 inv) as [[i2|]|x2]; simpl in C;
      try discriminate C.
    + assert (E : blank_status i1 = blank_status i2) by congruence.
      destruct (hashable k); simpl; [|reflexivity].
      apply IH. rewrite !blank_upsert, E, B. reflexivity.
    + simpl. apply IH. exact B.
    + injection C as ->. reflexivity.
Qed.

Lemma max_invoices_blank (cs : clients) :
  max_invoices (blank cs) = max_invoices cs.
Proof.
  unfold max_invoices, blank.
  destruct cs as [|c cs]; [reflexivity|].
  change (map _ (c :: cs)) with (blank (c :: cs)) at 1.
  unfold blank. rewrite map_map. simpl.
  f_equal; [apply length_map|]. f_equal. apply map_ext.
  intros a. simpl. apply length_map.
Qed.

(** X9: the time of the run bears on the status of the invoices and on
    nothing else: at two times the run raises the same exception or
    gives the same header and the same groups with the same invoices,
    the status apart. *)
Theorem time_changes_status_only (now1 now2 : datetime) (invs : list value) :
  map_result (fun cs => (headers cs, blank cs)) (aggregate now1 invs) =
  map_result (fun cs => (headers cs, blank cs)) (aggregate now2 invs).
Proof.
  unfold aggregate.
  pose proof (for_invoices_blank now1 now2 invs [] [] eq_refl) as B.
  destruct (for_invoices now1 invs []) as [c1|x1];
    destruct (for_invoices now2 invs []) as [c2|x2]; simpl in *;
    try discriminate B.
  - injection B as B. f_equal. f_equal; [|exact B].
    unfold headers.
    rewrite <- (max_invoices_blank c1), <- (max_invoices_blank c2), B.
    reflexivity.
  - injection B as ->. reflexivity.
Qed.

(** X10: an invoice that is past due at a time is past due at every later
    time. *)
Theorem past_due_stays_past_due
        (now1 now2 : datetime) (inv : value) (i1 : invoice_info) :
  valid_datetime now1 = true ->
  valid_datetime now2 = true ->
  instant now1 <= instant now2 ->
  classify now1 inv = Ok (Some i1) ->
  status i1 = "past_due" ->
  exists i2, classify now2 inv = Ok (Some i2) /\ status i2 = "past_due".
Proof.
  intros V1 V2 Hle C1 S1.
  pose proof (classify_blank now1 now2 inv) as B. rewrite C1 in B.
  destruct (classify now2 inv) as [[i2|]|x] eqn:C2; simpl in B;
    try discriminate B.
  exists i2. split; [reflexivity|].
  destruct (classify_some now1 inv i1 C1) as (s1 & d1 & D1 & P1 & _ & T1).
  destruct (classify_some now2 inv i2 C2) as (s2 & d2 & D2 & P2 & _ & T2).
  rewrite D1 in D2. injection D2 as <-.
  rewrite P1 in P2. injection P2 as <-.
  pose proof (strptime_str_valid _ d1 P1) as Vd.
  rewrite T2, (datetime_lt_instant d1 now2 Vd V2).
  rewrite T1, (datetime_lt_instant d1 now1 Vd V1) in S1.
  destruct (Z.ltb_spec (instant d1) (instant now1)); [|discriminate S1].
  destruct (Z.ltb_spec (instant d1) (instant now2)); [reflexivity|lia].
Qed.

Lemma past_due_stays_past_due_witness :
  exists i2,
    classify sample_now sample_invoice = Ok (Some i2) /\
    status i2 = "past_due".
Proof.
  apply (past_due_stays_past_due sample_after_due sample_now sample_invoice
           sample_info); try reflexivity.
  vm_compute. discriminate.
Defined.

(** X11: only the first ten characters of a due date bear on the status:
    two invoices whose due dates have the same first ten characters
    are classified alike, whatever time of day or other text comes
    after. *)
Theorem due_date_tail_ignored
        (now : datetime) (inv1 inv2 : value) (i1 i2 : invoice_info)
        (s1 s2 : string) :
  classify now inv1 = Ok (Some i1) ->
  classify now inv2 = Ok (Some i2) ->
  due_date i1 = VStr s1 ->
  due_date i2 = VStr s2 ->
  substring 0 10 s1 = substring 0 10 s2 ->
  status i1 = status i2.
Proof.
  intros C1 C2 D1 D2 E.
  destruct (classify_some now inv1 i1 C1) as (t1 & d1 & _ & P1 & Q1 & T1).
  destruct (classify_some now inv2 i2 C2) as (t2 & d2 & _ & P2 & Q2 & T2).
  rewrite D1 in Q1. injection Q1 as <-.
  rewrite D2 in Q2. injection Q2 as <-.
  rewrite E, P2 in P1. injection P1 as <-.
  rewrite T1, T2. reflexivity.
Qed.

Lemma due_date_tail_ignored_witness :
  status sample_info =
  status (mk_invoice_info "past_due" VNone VNone VNone VNone VNone
                          (VStr "2000-01-01T23:59:59+02:00")).
Proof.
  apply (due_date_tail_ignored sample_now sample_invoice
           (VDict [("dueDate", VStr "2000-01-01T23:59:59+02:00")])
           sample_info
           (mk_invoice_info "past_due" VNone VNone VNone VNone VNone
                            (VStr "2000-01-01T23:59:59+02:00"))
           "2000-01-01" "2000-01-01T23:59:59+02:00");
    reflexivity.
Defined.

(* ================================================================== *)
(** ** The names of the columns *)

Lemma append_cancel_l (a x y : string) : (a ++ x = a ++ y)%string -> x = y.
Proof.
  induction a as [|c a IH]; simpl; intros H; [exact H|].
  injection H as H. exact (IH H).
Qed.

Lemma string_of_uint_no_underscore (d : uint) :
  ~ In "_"%char (list_ascii_of_string (NilEmpty.string_of_uint d)).
Proof.
  induction d; simpl; intros H; try contradiction;
    destruct H as [H|H]; try discriminate H; auto.
Qed.

Lemma to_uint_nonnil (n : nat) : Nat.to_uint n <> Nil.
Proof.
  intros H. pose proof (DecimalNat.Unsigned.of_to n) as E.
  rewrite H in E. simpl in E. subst n. discriminate H.
Qed.

Lemma str_of_nat_no_underscore (i : nat) :
  ~ In "_"%char (list_ascii_of_string (str_of_nat i)).
Proof.
  unfold str_of_nat, NilZero.string_of_uint.
  destruct (Nat.to_uint i) eqn:E;
    try (rewrite <- E; apply string_of_uint_no_underscore).
  exfalso. exact (to_uint_nonnil i E).
Qed.

Lemma str_of_nat_inj (i j : nat) : str_of_nat i = str_of_nat j -> i = j.
Proof.
  unfold str_of_nat. intros H.
  apply (f_equal NilZero.uint_of_string) in H.
  rewrite !NilZero.usu in H by apply to_uint_nonnil.
  injection H as H. exact (DecimalNat.Unsigned.to_uint_inj i j H).
Qed.

(** Two strings without an underscore that are followed by one are
    told apart from what follows them. *)
Lemma split_at_underscore (a b x y : string) :
  ~ In "_"%char (list_ascii_of_string a) ->
  ~ In "_"%char (list_ascii_of_string b) ->
  (a ++ String "_" x = b ++ String "_" y)%string ->
  a = b /\ x = y.
Proof.
  revert b. induction a as [|c a IH]; intros [|c' b] Ha Hb H; simpl in *.
  - injection H as ->. auto.
  - injection H as <- _. exfalso. apply Hb. now left.
  - injection H as -> _. exfalso. apply Ha. now left.
  - injection H as -> H.
    destruct (IH b) as [-> ->]; auto.
Qed.

Lemma slot_headers_shape (i : nat) (x : string) :
  In x (slot_headers i) ->
  exists t, x = ("invoice" ++ str_of_nat i ++ String "_" t)%string.
Proof.
  unfold slot_headers. simpl.
  intros [<-|[<-|[<-|[<-|[<-|[<-|[<-|[]]]]]]]]; eexists; reflexivity.
Qed.

Lemma slot_headers_inj (i j : nat) (x : string) :
  In x (slot_headers i) -> In x (slot_headers j) -> i = j.
Proof.
  intros Hi Hj.
  destruct (slot_headers_shape i x Hi) as (t & Et).
  destruct (slot_headers_shape j x Hj) as (u & E).
  rewrite Et in E. apply (append_cancel_l "invoice") in E.
  apply split_at_underscore in E; try apply str_of_nat_no_underscore.
  destruct E as [E _]. exact (str_of_nat_inj i j E).
Qed.

Lemma slot_headers_nodup (i : nat) : NoDup (slot_headers i).
Proof.
  unfold slot_headers. cbv zeta.
  repeat (constructor;
          [simpl; intros H;
           repeat (destruct H as [H|H];
                   [apply (append_cancel_l ("invoice" ++ str_of_nat i)) in H;
                    discriminate H|]);
           exact H|]).
  constructor.
Qed.

Lemma invoice_headers_nodup (l : list nat) :
  NoDup l -> NoDup (flat_map slot_headers l).
Proof.
  induction 1 as [|a l Ha Hl IH]; [constructor|].
  change (flat_map slot_headers (a :: l))
    with (slot_headers a ++ flat_map slot_headers l)%list.
  apply NoDup_app; [apply slot_headers_nodup|exact IH|].
  intros x Hx Hin. apply in_flat_map in Hin. destruct Hin as (b & Hb & Hxb).
  rewrite (slot_headers_inj a b x Hx Hxb) in Ha. contradiction.
Qed.

(** X12: the names of the columns are all different. *)
Theorem header_names_distinct (cs : clients) : NoDup (headers cs).
Proof.
  unfold headers, invoice_headers.
  apply NoDup_app.
  - unfold base_headers.
    repeat (constructor;
            [simpl; intros H;
             repeat (destruct H as [H|H]; [discriminate H|]); exact H|]).
    constructor.
  - apply invoice_headers_nodup. apply seq_NoDup.
  - intros x Hb Hi. apply in_flat_map in Hi. destruct Hi as (i & _ & Hx).
    destruct (slot_headers_shape i x Hx) as (t & ->).
    unfold base_headers in Hb. simpl in Hb.
    repeat (destruct Hb as [Hb|Hb]; [discriminate Hb|]). exact Hb.
Qed.

(* ================================================================== *)
(** ** The cells under the columns *)

Lemma skipn_repeat {A : Type} (v : A) (a b : nat) :
  skipn a (repeat v b) = repeat v (b - a).
Proof.
  revert b. induction a as [|a IH]; intros [|b]; simpl; auto.
Qed.

Lemma firstn_repeat {A : Type} (v : A) (a b : nat) :
  (a <= b)%nat -> firstn a (repeat v b) = repeat v a.
Proof.
  revert b. induction a as [|a IH]; intros [|b] H; simpl; try reflexivity;
    try lia.
  rewrite IH by lia. reflexivity.
Qed.

Lemma block_of_cells (l : list invoice_info) (m : nat) :
  forall i,
    (i < length l + m)%nat ->
    firstn 7 (skipn (7 * i)
                (flat_map invoice_cells l ++ repeat (VStr "") (7 * m))) =
    match nth_error l i with
    | Some x => invoice_cells x
    | None => repeat (VStr "") 7
    end.
Proof.
  induction l as [|x l IH]; intros i H.
  - simpl in H. cbn [flat_map]. rewrite app_nil_l.
    rewrite skipn_repeat, firstn_repeat by lia. now destruct i.
  - destruct i as [|i].
    + reflexivity.
    + replace (7 * S i)%nat with (7 + 7 * i)%nat by lia.
      simpl in H. simpl nth_error. rewrite <- (IH i) by lia. reflexivity.
Qed.

Lemma block_of_headers (n : nat) :
  forall a i,
    (i < n)%nat ->
    firstn 7 (skipn (7 * i) (flat_map slot_headers (seq a n))) =
    slot_headers (a + i).
Proof.
  induction n as [|n IH]; intros a i H; [lia|].
  destruct i as [|i].
  - rewrite Nat.add_0_r. reflexivity.
  - replace (7 * S i)%nat with (7 + 7 * i)%nat by lia.
    replace (a + S i)%nat with (S a + i)%nat by lia.
    rewrite <- (IH (S a) i) by lia. reflexivity.
Qed.

Lemma row_of_eq (cs : clients) (c : value * group) :
  row_of (length (headers cs)) c =
  ([fst c; client_name (snd c); VStr (client_email (snd c));
    client_phone (snd c)]
   ++ flat_map invoice_cells (invoices (snd c))
   ++ repeat (VStr "")
        (7 * (max_invoices cs - length (invoices (snd c)))))%list.
Proof.
  unfold row_of. rewrite <- app_assoc. do 2 f_equal.
  rewrite length_app, invoice_cells_length, headers_length. simpl length.
  f_equal. lia.
Qed.

(** X13: the cells of a row stand under the columns of their slot.
    In the row of the client at place [n], the seven cells under the
    columns invoice{i+1}_status, _id, _amount, _description,
    _download_link, _create_date and _due_date are the status, id,
    amount, description, download_link, create_date and due_date of
    the invoice at index [i] of that client, and seven empty strings
    when the client has no such invoice; the four cells before them,
    under client_id, client_name, client_email and client_phone, are
    the client fields. *)
Theorem cells_under_their_columns
        (cs : clients) (c : value * group) (n i : nat) :
  nth_error cs n = Some c ->
  (i < max_invoices cs)%nat ->
  exists row,
    nth_error (snd (flatten cs)) n = Some row /\
    firstn 4 (fst (flatten cs)) =
    ["client_id"; "client_name"; "client_email"; "client_phone"] /\
    firstn 4 row =
    [fst c; client_name (snd c); VStr (client_email (snd c));
     client_phone (snd c)] /\
    firstn 7 (skipn (4 + 7 * i) (fst (flatten cs))) =
    ["invoice" ++ str_of_nat (S i) ++ "_status";
     "invoice" ++ str_of_nat (S i) ++ "_id";
     "invoice" ++ str_of_nat (S i) ++ "_amount";
     "invoice" ++ str_of_nat (S i) ++ "_description";
     "invoice" ++ str_of_nat (S i) ++ "_download_link";
     "invoice" ++ str_of_nat (S i) ++ "_create_date";
     "invoice" ++ str_of_nat (S i) ++ "_due_date"] /\
    firstn 7 (skipn (4 + 7 * i) row) =
    match nth_error (invoices (snd c)) i with
    | Some x =>
        [VStr (status x); invoice_id x; amount x; description x;
         download_link x; create_date x; due_date x]
    | None =>
        [VStr ""; VStr ""; VStr ""; VStr ""; VStr ""; VStr ""; VStr ""]
    end.
Proof.
  intros Hn Hi.
  pose proof (max_invoices_bound cs c (nth_error_In cs n Hn)) as B.
  exists (row_of (length (headers cs)) c).
  cbn [flatten fst snd].
  split; [|split; [|split; [|split]]].
  - unfold rows. rewrite nth_error_map, Hn. reflexivity.
  - reflexivity.
  - rewrite row_of_eq. reflexivity.
  - unfold headers, invoice_headers.
    exact (block_of_headers (max_invoices cs) 1 i Hi).
  - rewrite row_of_eq.
    exact (block_of_cells (invoices (snd c))
             (max_invoices cs - length (invoices (snd c))) i
             ltac:(lia)).
Qed.

Lemma cells_under_their_columns_witness :
  exists row1 row2,
    snd (flatten
           [(VStr "c1", mk_group (VStr "Acme") "" (VStr "") [sample_info]);
            (VStr "c2", mk_group (VStr "Bo") "" (VStr "")
                          [sample_info; sample_later_info])])
    = [row1; row2] /\
    firstn 7 (skipn 11
      (fst (flatten
         [(VStr "c1", mk_group (VStr "Acme") "" (VStr "") [sample_info]);
          (VStr "c2", mk_group (VStr "Bo") "" (VStr "")
                        [sample_info; sample_later_info])])))
    = ["invoice2_status"; "invoice2_id"; "invoice2_amount";
       "invoice2_description"; "invoice2_download_link";
       "invoice2_create_date"; "invoice2_due_date"] /\
    firstn 7 (skipn 11 row1) =
    [VStr ""; VStr ""; VStr ""; VStr ""; VStr ""; VStr ""; VStr ""] /\
    firstn 7 (skipn 11 row2) =
    [VStr "to_be_paid"; VStr "i2"; VNone; VNone; VNone; VNone;
     VStr "2030-01-01"].
Proof.
  destruct (cells_under_their_columns
              [(VStr "c1", mk_group (VStr "Acme") "" (VStr "") [sample_info]);
               (VStr "c2", mk_group (VStr "Bo") "" (VStr "")
                             [sample_info; sample_later_info])]
              (VStr "c1", mk_group (VStr "Acme") "" (VStr "") [sample_info])
              0%nat 1%nat eq_refl ltac:(vm_compute; lia))
    as (row1 & N1 & _ & _ & H1 & R1).
  destruct (cells_under_their_columns
              [(VStr "c1", mk_group (VStr "Acme") "" (VStr "") [sample_info]);
               (VStr "c2", mk_group (VStr "Bo") "" (VStr "")
                             [sample_info; sample_later_info])]
              (VStr "c2", mk_group (VStr "Bo") "" (VStr "")
                            [sample_info; sample_later_info])
              1%nat 1%nat eq_refl ltac:(vm_compute; lia))
    as (row2 & N2 & _ & _ & _ & R2).
  exists row1, row2.
  injection N1 as <-. injection N2 as <-.
  split; [reflexivity|]. split; [exact H1|]. split; [exact R1|exact R2].
Defined.

(* ================================================================== *)
(** ** The response of the search *)

(** X14: an object with a list under [items] gives the table of that list,
    and an array without the string "items" among its items gives the
    table of the array; an object without [items] gives the table
    with the four client columns and no row. *)
Theorem response_invoices_used (now : datetime) :
  (forall kvs xs,
      lookup kvs "items" = Some (VList xs) ->
      grouped_invoices_of_response now (VDict kvs) =
      get_grouped_invoices now xs) /\
  (forall xs,
      existsb is_items xs = false ->
      grouped_invoices_of_response now (VList xs) =
      get_grouped_invoices now xs) /\
  (forall kvs,
      lookup kvs "items" = None ->
      grouped_invoices_of_response now (VDict kvs) = Ok (base_headers, [])).
Proof.
  unfold grouped_invoices_of_response, get_open_invoices.
  split; [|split].
  - intros kvs xs H. simpl. rewrite H. reflexivity.
  - intros xs H. simpl. rewrite H. reflexivity.
  - intros kvs H. simpl. rewrite H. reflexivity.
Qed.

Lemma response_invoices_used_witness :
  grouped_invoices_of_response sample_now
    (VDict [("total", VInt 1); ("items", VList [sample_invoice])]) =
  get_grouped_invoices sample_now [sample_invoice] /\
  grouped_invoices_of_response sample_now (VList [sample_invoice]) =
  get_grouped_invoices sample_now [sample_invoice] /\
  grouped_invoices_of_response sample_now (VDict [("total", VInt 0)]) =
  Ok (base_headers, []).
Proof.
  destruct (response_invoices_used sample_now) as (A & B & C).
  split; [|split].
  - apply A. reflexivity.
  - apply B. reflexivity.
  - apply C. reflexivity.
Defined.

(** X15: the [return []] of line 58 is not reached by a response that is
    null, a number or a boolean, which the [in] of line 53 answers
    with a TypeError; and an array with the string "items" among its
    items is not taken for the list of invoices: line 54 indexes it
    with "items", a TypeError. *)
Theorem response_type_errors (now : datetime) :
  grouped_invoices_of_response now VNone = Raise TypeError /\
  (forall b, grouped_invoices_of_response now (VBool b) = Raise TypeError) /\
  (forall n, grouped_invoices_of_response now (VInt n) = Raise TypeError) /\
  (forall xs,
      existsb is_items xs = true ->
      grouped_invoices_of_response now (VList xs) = Raise TypeError).
Proof.
  unfold grouped_invoices_of_response, get_open_invoices.
  repeat split; try reflexivity.
  intros xs H. simpl. rewrite H. reflexivity.
Qed.

Lemma response_type_errors_witness :
  grouped_invoices_of_response sample_now
    (VList [sample_invoice; VStr "items"]) = Raise TypeError.
Proof.
  destruct (response_type_errors sample_now) as (_ & _ & _ & L).
  apply L. reflexivity.
Defined.

Lemma first_not_dict_raises (now : datetime) (s : string) (rest : list value) :
  get_grouped_invoices now (VStr s :: rest) = Raise AttributeError.
Proof. reflexivity. Qed.

(** X16: when [items] is not a list but a string or an object that is not
    empty, the loop goes through its characters or its keys, which
    have no [get]: the run ends with an AttributeError. *)
Theorem items_not_a_list_raises
        (now : datetime) (kvs : list (string * value)) (v : value) :
  lookup kvs "items" = Some v ->
  (exists c s, v = VStr (String c s)) \/ (exists kv d, v = VDict (kv :: d)) ->
  grouped_invoices_of_response now (VDict kvs) = Raise AttributeError.
Proof.
  intros H [(c & s & ->)|(kv & d & ->)];
    unfold grouped_invoices_of_response, get_open_invoices; simpl;
    rewrite H; simpl; apply first_not_dict_raises.
Qed.

Lemma items_not_a_list_raises_witness :
  grouped_invoices_of_response sample_now
    (VDict [("items", VDict [("0", sample_invoice)])]) = Raise AttributeError.
Proof.
  apply (items_not_a_list_raises sample_now
           [("items", VDict [("0", sample_invoice)])]
           (VDict [("0", sample_invoice)]) eq_refl).
  right. exists ("0", sample_invoice), []. reflexivity.
Defined.

(* ================================================================== *)
(** ** Strings *)

Lemma string_app_nil_r (s : string) : (s ++ "")%string = s.
Proof. induction s as [|c s IH]; simpl; [reflexivity|now rewrite IH]. Qed.

Lemma string_app_assoc (a b c : string) :
  ((a ++ b) ++ c)%string = (a ++ (b ++ c))%string.
Proof. induction a as [|x a IH]; simpl; [reflexivity|now rewrite IH]. Qed.

Lemma string_length_app (a b : string) :
  String.length (a ++ b) = (String.length a + String.length b)%nat.
Proof. induction a as [|x a IH]; simpl; [reflexivity|now rewrite IH]. Qed.

(* ================================================================== *)
(** ** The reader on what the writer writes *)

Lemma read_pending (c : ascii) (t : string) (p q : bool) (r : reader) :
  read (String c t) p r = read (String c t) q r.
Proof. reflexivity. Qed.

Lemma add_char_ok (r : reader) (c : ascii) (st : reader_state) :
  Z.of_nat (String.length (r_field r)) < field_limit ->
  add_char r c st =
  Parsed (mk_reader st (r_fields r) (r_field r ++ String c "")).
Proof.
  intros H. unfold add_char.
  destruct (Z.leb_spec field_limit (Z.of_nat (String.length (r_field r))));
    [lia|reflexivity].
Qed.

Lemma plain_char (c : ascii) :
  needs_quoting c = false ->
  Ascii.eqb c "," = false /\ Ascii.eqb c DQUOTE = false /\
  Ascii.eqb c CR = false /\ Ascii.eqb c LF = false.
Proof.
  unfold needs_quoting. intros H.
  apply orb_false_elim in H. destruct H as [H H4].
  apply orb_false_elim in H. destruct H as [H H3].
  apply orb_false_elim in H. destruct H as [H1 H2]. auto.
Qed.

(** A character that needs no quotes goes to the field being read. *)
Lemma read_plain_char (c : ascii) (t : string) (pend : bool)
      (st : reader_state) (fs : list string) (buf : string) :
  needs_quoting c = false ->
  st = START_RECORD \/ st = START_FIELD \/ st = IN_FIELD ->
  Z.of_nat (String.length buf) < field_limit ->
  read (String c t) pend (mk_reader st fs buf) =
  read t true (mk_reader IN_FIELD fs (buf ++ String c "")).
Proof.
  intros Hc Hst Hl. destruct (plain_char c Hc) as (C1 & C2 & C3 & C4).
  assert (P : process (mk_reader st fs buf) (Some c) =
              Parsed (mk_reader IN_FIELD fs (buf ++ String c ""))).
  { unfold process, start_field, is_newline.
    destruct Hst as [-> | [-> | ->]]; simpl; rewrite ?C1, ?C2, ?C3, ?C4;
      simpl; apply (add_char_ok (mk_reader _ fs buf) c IN_FIELD Hl). }
  simpl. rewrite P, C4. reflexivity.
Qed.

(** The characters of a field that is written without quotes. *)
Lemma read_plain (s : string) :
  forall (d : ascii) (t : string) (pend : bool) (st : reader_state)
         (fs : list string) (buf : string),
    existsb needs_quoting (chars s) = false ->
    s <> "" ->
    st = START_RECORD \/ st = START_FIELD \/ st = IN_FIELD ->
    Z.of_nat (String.length buf + String.length s) <= field_limit ->
    read (s ++ String d t) pend (mk_reader st fs buf) =
    read (String d t) pend (mk_reader IN_FIELD fs (buf ++ s)).
Proof.
  induction s as [|c s IH]; intros d t pend st fs buf Hp Hne Hst Hl;
    [contradiction|].
  simpl in Hp. apply orb_false_elim in Hp. destruct Hp as [Hc Hs].
  simpl in Hl.
  change (String c s ++ String d t)%string
    with (String c (s ++ String d t))%string.
  rewrite (read_plain_char c _ pend st fs buf Hc Hst) by lia.
  destruct s as [|c' s'].
  - simpl. reflexivity.
  - rewrite (IH d t true IN_FIELD fs (buf ++ String c "")%string Hs).
    + rewrite string_app_assoc. reflexivity.
    + discriminate.
    + auto.
    + rewrite string_length_app. simpl in *. lia.
Qed.

Lemma add_char_full (r : reader) (c : ascii) (st : reader_state) :
  field_limit <= Z.of_nat (String.length (r_field r)) ->
  add_char r c st = CsvError FieldLimit.
Proof.
  intros H. unfold add_char.
  destruct (Z.leb_spec field_limit (Z.of_nat (String.length (r_field r))));
    [reflexivity|lia].
Qed.

(** A field without quotes that is too long for the reader. *)
Lemma read_plain_too_long (s : string) :
  forall (t : string) (pend : bool) (st : reader_state)
         (fs : list string) (buf : string),
    existsb needs_quoting (chars s) = false ->
    st = START_RECORD \/ st = START_FIELD \/ st = IN_FIELD ->
    Z.of_nat (String.length buf) <= field_limit ->
    field_limit < Z.of_nat (String.length buf + String.length s) ->
    read (s ++ t) pend (mk_reader st fs buf) = CsvError FieldLimit.
Proof.
  induction s as [|c s IH]; intros t pend st fs buf Hp Hst Hb Hl.
  - simpl in Hl. lia.
  - simpl in Hp. apply orb_false_elim in Hp. destruct Hp as [Hc Hs].
    simpl in Hl.
    change (String c s ++ t)%string with (String c (s ++ t))%string.
    destruct (Z.eq_dec (Z.of_nat (String.length buf)) field_limit) as [E|E].
    + destruct (plain_char c Hc) as (C1 & C2 & C3 & C4).
      assert (P : process (mk_reader st fs buf) (Some c) =
                  CsvError FieldLimit).
      { unfold process, start_field, is_newline.
        destruct Hst as [-> | [-> | ->]]; simpl;
          rewrite ?C1, ?C2, ?C3, ?C4; simpl;
          apply (add_char_full (mk_reader _ fs buf) c IN_FIELD); simpl; lia. }
      simpl. rewrite P. reflexivity.
    + rewrite (read_plain_char c _ pend st fs buf Hc Hst) by lia.
      apply IH; auto.
      * rewrite string_length_app. simpl. lia.
      * rewrite string_length_app. simpl. lia.
Qed.

Lemma read_cons (c : ascii) (t : string) (pend : bool) (r : reader) :
  read (String c t) pend r =
  match process r (Some c) with
  | CsvError e => CsvError e
  | Parsed r1 =>
      if Ascii.eqb c LF then
        match process r1 None with
        | CsvError e => CsvError e
        | Parsed r2 =>
            if at_start r2 then
              match read t false fresh with
              | CsvError e => CsvError e
              | Parsed records => Parsed (r_fields r2 :: records)
              end
            else read t false r2
        end
      else read t true r1
  end.
Proof. reflexivity. Qed.

Lemma process_in_quoted (c : ascii) (fs : list string) (buf : string) :
  process (mk_reader IN_QUOTED_FIELD fs buf) (Some c) =
  if Ascii.eqb c DQUOTE
  then Parsed (mk_reader QUOTE_IN_QUOTED_FIELD fs buf)
  else add_char (mk_reader IN_QUOTED_FIELD fs buf) c IN_QUOTED_FIELD.
Proof. reflexivity. Qed.

Lemma process_quote_in_quoted (fs : list string) (buf : string) :
  process (mk_reader QUOTE_IN_QUOTED_FIELD fs buf) (Some DQUOTE) =
  add_char (mk_reader QUOTE_IN_QUOTED_FIELD fs buf) DQUOTE IN_QUOTED_FIELD.
Proof. reflexivity. Qed.

(** A character in a quoted field. *)
Lemma read_quoted_char (c : ascii) (t : string) (pend : bool)
      (fs : list string) (buf : string) :
  Z.of_nat (String.length buf) < field_limit ->
  read (double_quotes (String c "") ++ t) pend
       (mk_reader IN_QUOTED_FIELD fs buf) =
  read t (negb (Ascii.eqb c LF))
       (mk_reader IN_QUOTED_FIELD fs (buf ++ String c "")).
Proof.
  intros Hl. cbn [double_quotes].
  destruct (Ascii.eqb c DQUOTE) eqn:Q.
  - apply Ascii.eqb_eq in Q. subst c.
    change (String DQUOTE (String DQUOTE "") ++ t)%string
      with (String DQUOTE (String DQUOTE t)).
    rewrite read_cons, process_in_quoted.
    change (Ascii.eqb DQUOTE DQUOTE) with true.
    change (Ascii.eqb DQUOTE LF) with false. cbv iota.
    rewrite read_cons, process_quote_in_quoted.
    rewrite (add_char_ok (mk_reader QUOTE_IN_QUOTED_FIELD fs buf) DQUOTE
               IN_QUOTED_FIELD Hl).
    change (Ascii.eqb DQUOTE LF) with false. reflexivity.
  - change (String c "" ++ t)%string with (String c t).
    rewrite read_cons, process_in_quoted, Q.
    rewrite (add_char_ok (mk_reader IN_QUOTED_FIELD fs buf) c
               IN_QUOTED_FIELD Hl).
    destruct (Ascii.eqb c LF); reflexivity.
Qed.

Lemma read_quoted_char_full (c : ascii) (t : string) (pend : bool)
      (fs : list string) (buf : string) :
  field_limit <= Z.of_nat (String.length buf) ->
  read (double_quotes (String c "") ++ t) pend
       (mk_reader IN_QUOTED_FIELD fs buf) = CsvError FieldLimit.
Proof.
  intros Hl. cbn [double_quotes].
  destruct (Ascii.eqb c DQUOTE) eqn:Q.
  - apply Ascii.eqb_eq in Q. subst c.
    change (String DQUOTE (String DQUOTE "") ++ t)%string
      with (String DQUOTE (String DQUOTE t)).
    rewrite read_cons, process_in_quoted.
    change (Ascii.eqb DQUOTE DQUOTE) with true.
    change (Ascii.eqb DQUOTE LF) with false. cbv iota.
    rewrite read_cons, process_quote_in_quoted.
    rewrite (add_char_full (mk_reader QUOTE_IN_QUOTED_FIELD fs buf) DQUOTE
               IN_QUOTED_FIELD Hl).
    reflexivity.
  - change (String c "" ++ t)%string with (String c t).
    rewrite read_cons, process_in_quoted, Q.
    rewrite (add_char_full (mk_reader IN_QUOTED_FIELD fs buf) c
               IN_QUOTED_FIELD Hl).
    reflexivity.
Qed.

Lemma double_quotes_cons (c : ascii) (s t : string) :
  (double_quotes (String c s) ++ t)%string =
  (double_quotes (String c "") ++ (double_quotes s ++ t))%string.
Proof. simpl. destruct (Ascii.eqb c DQUOTE); reflexivity. Qed.

(** The characters of a quoted field and the quote that closes it. *)
Lemma read_quoted (s : string) :
  forall (d : ascii) (t : string) (pend : bool)
         (fs : list string) (buf : string),
    Z.of_nat (String.length buf + String.length s) <= field_limit ->
    read (double_quotes s ++ String DQUOTE (String d t)) pend
         (mk_reader IN_QUOTED_FIELD fs buf) =
    read (String d t) pend
         (mk_reader QUOTE_IN_QUOTED_FIELD fs (buf ++ s)).
Proof.
  induction s as [|c s IH]; intros d t pend fs buf Hl.
  - simpl. rewrite string_app_nil_r. reflexivity.
  - simpl in Hl. rewrite double_quotes_cons.
    rewrite read_quoted_char by lia.
    rewrite IH by (rewrite string_length_app; simpl; lia).
    rewrite string_app_assoc. reflexivity.
Qed.

Lemma read_quoted_too_long (s : string) :
  forall (t : string) (pend : bool) (fs : list string) (buf : string),
    Z.of_nat (String.length buf) <= field_limit ->
    field_limit < Z.of_nat (String.length buf + String.length s) ->
    read (double_quotes s ++ t) pend (mk_reader IN_QUOTED_FIELD fs buf) =
    CsvError FieldLimit.
Proof.
  induction s as [|c s IH]; intros t pend fs buf Hb Hl.
  - simpl in Hl. lia.
  - simpl in Hl. rewrite double_quotes_cons.
    destruct (Z.eq_dec (Z.of_nat (String.length buf)) field_limit) as [E|E].
    + apply read_quoted_char_full. lia.
    + rewrite read_quoted_char by lia.
      apply IH; rewrite string_length_app; simpl; lia.
Qed.

Lemma fits_true (f : string) :
  fits f = true -> Z.of_nat (String.length f) <= field_limit.
Proof. apply Z.leb_le. Qed.

Lemma fits_false (f : string) :
  fits f = false -> field_limit < Z.of_nat (String.length f).
Proof. apply Z.leb_gt. Qed.

Lemma process_open_quote (st : reader_state) (fs : list string) :
  st = START_RECORD \/ st = START_FIELD ->
  process (mk_reader st fs "") (Some DQUOTE) =
  Parsed (mk_reader IN_QUOTED_FIELD fs "").
Proof. intros [-> | ->]; reflexivity. Qed.

Lemma process_comma (st : reader_state) (fs : list string) (buf : string) :
  st = START_RECORD \/ st = START_FIELD \/ st = IN_FIELD \/
  st = QUOTE_IN_QUOTED_FIELD ->
  process (mk_reader st fs buf) (Some ","%char) =
  Parsed (mk_reader START_FIELD (fs ++ [buf]) "").
Proof. intros [-> | [-> | [-> | ->]]]; reflexivity. Qed.

(** The line terminator after a field ends the record. *)
Lemma read_crlf (t : string) (pend : bool) (st : reader_state)
      (fs : list string) (buf : string) :
  st = START_FIELD \/ st = IN_FIELD \/ st = QUOTE_IN_QUOTED_FIELD ->
  read (String CR (String LF t)) pend (mk_reader st fs buf) =
  match read t false fresh with
  | CsvError e => CsvError e
  | Parsed records => Parsed ((fs ++ [buf])%list :: records)
  end.
Proof. intros [-> | [-> | ->]]; reflexivity. Qed.

(** A field that fits, before a delimiter. *)
Lemma read_field_comma (f t : string) (pend : bool) (st : reader_state)
      (fs : list string) :
  st = START_RECORD \/ st = START_FIELD ->
  Z.of_nat (String.length f) <= field_limit ->
  read (write_field f ++ String "," t) pend (mk_reader st fs "") =
  read t true (mk_reader START_FIELD (fs ++ [f]) "").
Proof.
  intros Hst Hl. unfold write_field.
  destruct (existsb needs_quoting (chars f)) eqn:Q.
  - change (String DQUOTE (double_quotes f ++ String DQUOTE "")
            ++ String "," t)%string
      with (String DQUOTE
              ((double_quotes f ++ String DQUOTE "") ++ String "," t))%string.
    rewrite string_app_assoc.
    change (String DQUOTE "" ++ String "," t)%string
      with (String DQUOTE (String "," t)).
    rewrite read_cons, (process_open_quote st fs Hst).
    change (Ascii.eqb DQUOTE LF) with false. cbv iota.
    rewrite read_quoted by (simpl; lia).
    rewrite read_cons, process_comma by auto.
    reflexivity.
  - destruct f as [|c f].
    + change ("" ++ String "," t)%string with (String "," t).
      rewrite read_cons, process_comma by tauto. reflexivity.
    + rewrite (read_plain (String c f) ","%char t pend st fs "" Q
                 ltac:(discriminate) ltac:(tauto) ltac:(simpl in *; lia)).
      rewrite read_cons, process_comma by auto. reflexivity.
Qed.

(** A field that fits, before the end of the row. *)
Lemma read_field_crlf (f t : string) (pend : bool) (st : reader_state)
      (fs : list string) :
  st = START_FIELD \/ (st = START_RECORD /\ f <> "") ->
  Z.of_nat (String.length f) <= field_limit ->
  read (write_field f ++ String CR (String LF t)) pend (mk_reader st fs "") =
  match read t false fresh with
  | CsvError e => CsvError e
  | Parsed records => Parsed ((fs ++ [f])%list :: records)
  end.
Proof.
  intros Hst Hl.
  assert (Hst' : st = START_RECORD \/ st = START_FIELD) by tauto.
  unfold write_field.
  destruct (existsb needs_quoting (chars f)) eqn:Q.
  - change (String DQUOTE (double_quotes f ++ String DQUOTE "")
            ++ String CR (String LF t))%string
      with (String DQUOTE
              ((double_quotes f ++ String DQUOTE "")
               ++ String CR (String LF t)))%string.
    rewrite string_app_assoc.
    change (String DQUOTE "" ++ String CR (String LF t))%string
      with (String DQUOTE (String CR (String LF t))).
    rewrite read_cons, (process_open_quote st fs Hst').
    change (Ascii.eqb DQUOTE LF) with false. cbv iota.
    rewrite read_quoted by (simpl; lia).
    apply read_crlf. auto.
  - destruct f as [|c f].
    + change ("" ++ String CR (String LF t))%string
        with (String CR (String LF t)).
      apply read_crlf. destruct Hst as [->|[_ N]]; [auto|contradiction].
    + rewrite (read_plain (String c f) CR (String LF t) pend st fs "" Q
                 ltac:(discriminate) ltac:(tauto) ltac:(simpl in *; lia)).
      apply read_crlf. auto.
Qed.

(** A field that does not fit. *)
Lemma read_field_too_long (f t : string) (pend : bool) (st : reader_state)
      (fs : list string) :
  st = START_RECORD \/ st = START_FIELD ->
  field_limit < Z.of_nat (String.length f) ->
  read (write_field f ++ t) pend (mk_reader st fs "") = CsvError FieldLimit.
Proof.
  intros Hst Hl. unfold write_field.
  destruct (existsb needs_quoting (chars f)) eqn:Q.
  - change (String DQUOTE (double_quotes f ++ String DQUOTE "") ++ t)%string
      with (String DQUOTE ((double_quotes f ++ String DQUOTE "") ++ t))%string.
    rewrite string_app_assoc.
    rewrite read_cons, (process_open_quote st fs Hst).
    change (Ascii.eqb DQUOTE LF) with false. cbv iota.
    apply read_quoted_too_long; simpl; [unfold field_limit|]; lia.
  - apply (read_plain_too_long f t pend st fs "" Q);
      [tauto|simpl; unfold field_limit; lia|simpl; lia].
Qed.

Lemma write_field_nonempty (f : string) : f <> "" -> write_field f <> "".
Proof.
  intros H. unfold write_field.
  destruct (existsb needs_quoting (chars f)); [discriminate|exact H].
Qed.

Lemma string_app_cons_nonempty (a : string) (c : ascii) (b : string) :
  (a ++ String c b)%string <> "".
Proof. destruct a; discriminate. Qed.

Lemma concat_cons (sep x y : string) (l : list string) :
  String.concat sep (x :: y :: l) =
  (x ++ sep ++ String.concat sep (y :: l))%string.
Proof. reflexivity. Qed.

(** The fields of a row, from the one the reader is at. *)
Lemma read_fields (rest : list string) :
  forall (f t : string) (pend : bool) (st : reader_state) (fs : list string),
    st = START_FIELD \/ (st = START_RECORD /\ (f <> "" \/ rest <> [])) ->
    read (String.concat "," (map write_field (f :: rest))
          ++ String CR (String LF t)) pend (mk_reader st fs "") =
    if forallb fits (f :: rest)
    then match read t false fresh with
         | CsvError e => CsvError e
         | Parsed records => Parsed ((fs ++ f :: rest)%list :: records)
         end
    else CsvError FieldLimit.
Proof.
  induction rest as [|g rest IH]; intros f t pend st fs Hst.
  - cbn [map String.concat forallb]. rewrite andb_true_r.
    destruct (fits f) eqn:F.
    + apply read_field_crlf; [|exact (fits_true f F)].
      destruct Hst as [->|[-> [N|N]]]; auto;
        try (exfalso; apply N; reflexivity).
    + apply read_field_too_long; [|exact (fits_false f F)].
      destruct Hst as [->|[-> _]]; auto.
  - cbn [map]. rewrite concat_cons, string_app_assoc.
    change (("," ++ String.concat "," (write_field g :: map write_field rest))
            ++ String CR (String LF t))%string
      with (String ","
              (String.concat "," (map write_field (g :: rest))
               ++ String CR (String LF t)))%string.
    assert (Hst' : st = START_RECORD \/ st = START_FIELD).
    { destruct Hst as [->|[-> _]]; auto. }
    cbn [forallb]. destruct (fits f) eqn:F.
    + rewrite (read_field_comma f _ pend st fs Hst' (fits_true f F)).
      rewrite (IH g t true START_FIELD (fs ++ [f])%list (or_introl eq_refl)).
      cbn [forallb andb]. rewrite <- app_assoc. reflexivity.
    + apply read_field_too_long; [exact Hst'|exact (fits_false f F)].
Qed.

(** A row of the writer, read back. *)
Lemma read_row (row : list string) (t : string) :
  read (writerow row ++ t) false fresh =
  if forallb fits row
  then match read t false fresh with
       | CsvError e => CsvError e
       | Parsed records => Parsed (row :: records)
       end
  else CsvError FieldLimit.
Proof.
  destruct row as [|f rest]; [reflexivity|].
  destruct (String.eqb_spec f "") as [->|Hf].
  - destruct rest as [|g rest]; [reflexivity|].
    unfold writerow. cbv zeta.
    destruct (String.eqb_spec
                (String.concat "," (map write_field ("" :: g :: rest))) "")
      as [E|_].
    + exfalso. cbn [map] in E. rewrite concat_cons in E.
      exact (string_app_cons_nonempty _ _ _ E).
    + cbn [andb]. rewrite string_app_assoc.
      change (String CR (String LF "") ++ t)%string
        with (String CR (String LF t)).
      apply (read_fields (g :: rest) "" t false START_RECORD []).
      right. split; [reflexivity|]. right. discriminate.
  - unfold writerow. cbv zeta.
    destruct (String.eqb_spec
                (String.concat "," (map write_field (f :: rest))) "")
      as [E|_].
    + exfalso. destruct rest as [|g rest].
      * exact (write_field_nonempty f Hf E).
      * cbn [map] in E. rewrite concat_cons in E.
        destruct (write_field f); discriminate E.
    + cbn [andb]. rewrite string_app_assoc.
      change (String CR (String LF "") ++ t)%string
        with (String CR (String LF t)).
      apply (read_fields rest f t false START_RECORD []). auto.
Qed.

(** The text of a table, read back: the table, or the error of a
    field that is too long. *)
Lemma read_table (table : list (list string)) :
  read (csv_text table) false fresh =
  if forallb (forallb fits) table then Parsed table
  else CsvError FieldLimit.
Proof.
  induction table as [|row table IH]; [reflexivity|].
  cbn [csv_text forallb]. rewrite read_row, IH.
  destruct (forallb fits row); [|reflexivity].
  destruct (forallb (forallb fits) table); reflexivity.
Qed.

(** X17: what [upload_to_google_sheet] reads back from the csv text is the
    table that was written: the header and the rows, every cell as
    its text, None as the empty string, and the strings as they are
    whatever commas, quotes and line breaks they have.  There is one
    exception: a cell of more than 131072 characters is beyond the
    field limit of the reader, which raises an error. *)
Theorem rows_read_back (t : list string * list (list value)) :
  csv_rows (csv_string t) =
  if forallb (forallb fits) (fst t :: map (map cell_text) (snd t))
  then Parsed (fst t :: map (map cell_text) (snd t))
  else CsvError FieldLimit.
Proof. apply read_table. Qed.

(** A table with a comma, quotes, a line break, None, a number and a
    row of one empty cell, written and read back. *)
Example csv_sample_read_back :
  let quoted := ("say " ++ String DQUOTE ("hi" ++ String DQUOTE "")
                 ++ String CR (String LF "bye"))%string in
  csv_string
    (["a"; "b"], [[VStr "x,y"; VNone]; [VStr quoted; VInt (-7)]; [VStr ""]])
  = ("a,b" ++ String CR (String LF "")
     ++ String DQUOTE ("x,y" ++ String DQUOTE ("," ++ String CR (String LF "")))
     ++ String DQUOTE
          ("say " ++ String DQUOTE (String DQUOTE
             ("hi" ++ String DQUOTE (String DQUOTE
                (String CR (String LF ("bye" ++ String DQUOTE
                   (",-7" ++ String CR (String LF "")))))))))
     ++ String DQUOTE (String DQUOTE (String CR (String LF ""))))%string
  /\ csv_rows
       (csv_string
          (["a"; "b"],
           [[VStr "x,y"; VNone]; [VStr quoted; VInt (-7)]; [VStr ""]]))
     = Parsed [["a"; "b"]; ["x,y"; ""]; [quoted; "-7"]; [""]].
Proof. split; vm_compute; reflexivity. Qed.
